(** * DCN+ coattention encoder / span decoder: a shallow embedding

    Source: [question_answering/dcn_plus.py].

    The program is a TensorFlow 1.x graph-construction module.  Its own
    functions ([maybe_mask_affinity], [coattention], [query_document_encoder],
    [encode], [decode], [add_sentinel], [remove_sentinel]) are embedded below,
    line by line, on top of a small model of the tensor operations they call
    ([tf.einsum], [tf.sequence_mask], [tf.expand_dims], [tf.tile],
    [tf.ones_like], [tf.where], [tf.transpose], [tf.nn.softmax], [tf.concat],
    [tf.squeeze], [tf.layers.dense]), each written from its documented
    semantics.

    Numbers.  A tensor element is a [scalar]: a real number or one of the IEEE
    special values +inf, -inf, NaN.  An arithmetic operation on finite values
    computes the real result, rounds it and overflows to an infinity beyond
    the largest finite value; rounding and the largest value come from a
    [float_format], of which float32 is one.  The statements below hold of
    every format; those that rely on rounding assume the laws [format_ok],
    which float32 satisfies.  The special values follow the IEEE rules; there
    is one zero.

    Integers.  Lengths are integers of any size (int64 tensors hold them);
    [tf.sequence_mask] casts them to the int32 type of [maxlen], which wraps.

    Errors.  A TensorFlow operation that rejects its arguments (rank or shape
    mismatch, a tensor where a Python integer is required) is modelled as
    [None]. *)

From Stdlib Require Import String Ascii Reals Lra List Arith ZArith Lia Bool.
Import ListNotations.

(** ** Floating-point formats

    [rnd] rounds a real number to the format, [fmax] is the largest finite
    value and [fint] bounds the integers the format holds exactly (2^24 for
    float32). *)

Class float_format : Type := mkFormat {
  rnd : R -> R;
  fint : R;
  fmax : R
}.

(** What the statements that depend on rounding use of it: rounding is
    monotone, and the natural numbers up to [fint] are values of the format. *)
Record format_ok (fmt : float_format) : Prop := mkFormatOk {
  rnd_monotone : forall x y : R, (x <= y)%R -> (rnd x <= rnd y)%R;
  rnd_nat : forall k : nat, (INR k <= fint)%R -> rnd (INR k) = INR k;
  fint_ge_1 : (1 <= fint)%R;
  fint_le_fmax : (fint <= fmax)%R
}.

(** The format that does not round, used for sample runs; its bounds are
    those of float32 (the largest float32 is just below 2^128). *)
Definition exact_format : float_format :=
  mkFormat (fun x => x) (IZR (2 ^ 24)) (IZR (2 ^ 128)).

(** ** Scalars *)

Inductive scalar : Type :=
| Num (r : R)
| PInf
| NInf
| NaN.

Section Format.

Context {fmt : float_format}.

(** The value an operation returns for the real result [x]. *)
Definition to_float (x : R) : scalar :=
  if Rlt_dec fmax (rnd x) then PInf
  else if Rlt_dec (rnd x) (- fmax) then NInf
  else Num (rnd x).

(** Sign of a real number, as a three-way comparison with zero. *)
Definition Rsgn (r : R) : comparison :=
  match total_order_T r 0%R with
  | inleft (left _) => Lt
  | inleft (right _) => Eq
  | inright _ => Gt
  end.

Definition fadd (x y : scalar) : scalar :=
  match x, y with
  | NaN, _ | _, NaN => NaN
  | Num a, Num b => to_float (a + b)
  | PInf, NInf | NInf, PInf => NaN
  | PInf, _ | _, PInf => PInf
  | NInf, _ | _, NInf => NInf
  end.

Definition inf_of_sign (c : comparison) : scalar :=
  match c with
  | Gt => PInf
  | Lt => NInf
  | Eq => NaN
  end.

Definition fneg (x : scalar) : scalar :=
  match x with
  | Num a => Num (- a)%R
  | PInf => NInf
  | NInf => PInf
  | NaN => NaN
  end.

Definition fsub (x y : scalar) : scalar := fadd x (fneg y).

Definition fmul (x y : scalar) : scalar :=
  match x, y with
  | NaN, _ | _, NaN => NaN
  | Num a, Num b => to_float (a * b)
  | Num a, PInf | PInf, Num a => inf_of_sign (Rsgn a)
  | Num a, NInf | NInf, Num a => fneg (inf_of_sign (Rsgn a))
  | PInf, PInf | NInf, NInf => PInf
  | PInf, NInf | NInf, PInf => NInf
  end.

Definition fdiv (x y : scalar) : scalar :=
  match x, y with
  | NaN, _ | _, NaN => NaN
  | Num a, Num b =>
      match Rsgn b with
      | Eq => inf_of_sign (Rsgn a)
      | _ => to_float (a / b)
      end
  | Num _, PInf | Num _, NInf => Num 0%R
  | PInf, Num b => match Rsgn b with Lt => NInf | _ => PInf end
  | NInf, Num b => match Rsgn b with Lt => PInf | _ => NInf end
  | PInf, PInf | PInf, NInf | NInf, PInf | NInf, NInf => NaN
  end.

Definition fexp (x : scalar) : scalar :=
  match x with
  | Num a => to_float (exp a)
  | PInf => PInf
  | NInf => Num 0%R
  | NaN => NaN
  end.

Definition ftanh (x : scalar) : scalar :=
  match x with
  | Num a => to_float (tanh a)
  | PInf => Num 1%R
  | NInf => Num (-1)%R
  | NaN => NaN
  end.

(** The larger of two elements; a NaN operand gives NaN.  (How the maximum
    of a softmax column treats a NaN does not show in the result: the column
    is NaN throughout either way, through the sum of its exponentials.) *)
Definition fmax2 (x y : scalar) : scalar :=
  match x, y with
  | NaN, _ | _, NaN => NaN
  | PInf, _ | _, PInf => PInf
  | NInf, z | z, NInf => z
  | Num a, Num b => if Rle_dec a b then Num b else Num a
  end.

(** [tf.reduce_sum] over a list of elements: the empty sum is zero. *)
Definition fsum (l : list scalar) : scalar := fold_right fadd (Num 0%R) l.

(** [tf.reduce_max] over a list of elements: the empty maximum is -inf. *)
Definition fmaximum (l : list scalar) : scalar := fold_right fmax2 NInf l.

Definition is_num (x : scalar) : Prop := exists r, x = Num r.



(** ** The error monad *)

Definition bind {A B : Type} (c : option A) (k : A -> option B) : option B :=
  match c with
  | Some a => k a
  | None => None
  end.

Notation "x <- c ;; k" := (bind c (fun x => k))
  (at level 61, c at next level, right associativity).

(** ** Tensors

    A tensor is its shape together with its elements, addressed by a
    multi-index (one position per axis).  Only the elements at in-range
    indices are meaningful. *)

Record tensor (A : Type) : Type := mkTensor {
  shape : list nat;
  elem : list nat -> A
}.

Arguments mkTensor {A} _ _.
Arguments shape {A} _.
Arguments elem {A} _ _.

Definition rank {A : Type} (t : tensor A) : nat := length (shape t).

Definition shape_eqb (s1 s2 : list nat) : bool :=
  if list_eq_dec Nat.eq_dec s1 s2 then true else false.

(** [tf.shape(t)[i]]: fails when the tensor has no axis [i]. *)
Definition dim {A : Type} (t : tensor A) (i : nat) : option nat :=
  nth_error (shape t) i.

(** The multi-index [idx] with position [axis] replaced by [k]. *)
Fixpoint set_axis (idx : list nat) (axis k : nat) : list nat :=
  match idx, axis with
  | [], _ => []
  | _ :: idx', O => k :: idx'
  | i :: idx', S axis' => i :: set_axis idx' axis' k
  end.

(** A cast of an integer to int32: the value modulo 2^32, in two's
    complement. *)
Definition cast_int32 (z : Z) : Z := ((z + 2 ^ 31) mod 2 ^ 32 - 2 ^ 31)%Z.

(** [tf.sequence_mask(lengths, maxlen)] with an int32 [maxlen] (the source
    takes it from [tf.shape]): the lengths are cast to the type of [maxlen];
    the result is a boolean tensor of shape [shape lengths ++ [maxlen]] whose
    entry at [(.., i)] is [i < lengths[..]]. *)
Definition sequence_mask (lengths : tensor Z) (maxlen : nat) : tensor bool :=
  mkTensor (shape lengths ++ [maxlen])
           (fun idx => Z.ltb (Z.of_nat (last idx 0))
                             (cast_int32 (elem lengths (removelast idx)))).

(** [tf.expand_dims(t, axis)] for a non-negative [axis]: inserts an axis of
    size 1 at position [axis]. *)
Definition expand_dims {A : Type} (t : tensor A) (axis : nat) : option (tensor A) :=
  if axis <=? rank t then
    Some (mkTensor (firstn axis (shape t) ++ 1 :: skipn axis (shape t))
                   (fun idx => elem t (firstn axis idx ++ skipn (S axis) idx)))
  else None.

Fixpoint zip_with {X Y Z : Type} (f : X -> Y -> Z) (l1 : list X) (l2 : list Y) : list Z :=
  match l1, l2 with
  | x :: l1', y :: l2' => f x y :: zip_with f l1' l2'
  | _, _ => []
  end.

(** [tf.tile(t, multiples)]: [multiples] has one entry per axis; axis [i] of
    the result has size [shape[i] * multiples[i]] and the input repeats along it. *)
Definition tile {A : Type} (t : tensor A) (multiples : list nat) : option (tensor A) :=
  if length multiples =? rank t then
    Some (mkTensor (zip_with Nat.mul (shape t) multiples)
                   (fun idx => elem t (zip_with Nat.modulo idx (shape t))))
  else None.

(** [tf.ones_like(t)]. *)
Definition ones_like (t : tensor scalar) : tensor scalar :=
  mkTensor (shape t) (fun _ => Num 1%R).

(** A Python float times a tensor: the float is broadcast. *)
Definition scalar_mul (v : scalar) (t : tensor scalar) : tensor scalar :=
  mkTensor (shape t) (fun idx => fmul v (elem t idx)).

(** [tf.where(condition, x, y)] with a condition of the shape of [x] and [y]:
    element-wise selection.  (The other form of [tf.where], a rank-1
    condition selecting rows, cannot arise below: the condition built by
    [maybe_mask_affinity] comes out of a three-entry [tf.tile], so it has
    rank 3.) *)
Definition where_ {A : Type} (condition : tensor bool) (x y : tensor A) : option (tensor A) :=
  if shape_eqb (shape condition) (shape x) && shape_eqb (shape x) (shape y) then
    Some (mkTensor (shape x)
                   (fun idx => if elem condition idx then elem x idx else elem y idx))
  else None.

Fixpoint index_of (j : nat) (l : list nat) : nat :=
  match l with
  | [] => 0
  | x :: l' => if x =? j then 0 else S (index_of j l')
  end.

Definition is_permutation (perm : list nat) (n : nat) : bool :=
  (length perm =? n) && forallb (fun j => existsb (Nat.eqb j) perm) (seq 0 n).

(** [tf.transpose(t, perm)]: axis [i] of the result is axis [perm[i]] of [t]. *)
Definition transpose {A : Type} (t : tensor A) (perm : list nat) : option (tensor A) :=
  if is_permutation perm (rank t) then
    Some (mkTensor (map (fun p => nth p (shape t) 0) perm)
                   (fun idx => elem t (map (fun j => nth (index_of j perm) idx 0)
                                           (seq 0 (rank t)))))
  else None.

(** [tf.nn.softmax(logits, dim)], as its kernel computes it: the maximum
    along [dim] is subtracted first, then
    [exp(shifted) / reduce_sum(exp(shifted), dim)]. *)
Definition softmax_column (column : list scalar) (x : scalar) : scalar :=
  let m := fmaximum column in
  fdiv (fexp (fsub x m)) (fsum (map (fun y => fexp (fsub y m)) column)).

Definition softmax (logits : tensor scalar) (axis : nat) : option (tensor scalar) :=
  n <- dim logits axis ;;
  Some (mkTensor (shape logits)
                 (fun idx =>
                    softmax_column
                      (map (fun k => elem logits (set_axis idx axis k)) (seq 0 n))
                      (elem logits idx))).

(** [tf.squeeze(t)] without an axis argument: every axis of size 1 is removed. *)
Fixpoint unsqueeze_index (shp idx : list nat) : list nat :=
  match shp with
  | [] => []
  | d :: shp' =>
      if d =? 1 then 0 :: unsqueeze_index shp' idx
      else match idx with
           | [] => 0 :: unsqueeze_index shp' []
           | i :: idx' => i :: unsqueeze_index shp' idx'
           end
  end.

Definition squeeze {A : Type} (t : tensor A) : tensor A :=
  mkTensor (filter (fun d => negb (d =? 1)) (shape t))
           (fun idx => elem t (unsqueeze_index (shape t) idx)).

(** [tf.concat(values, axis)]: the tensors agree on every axis but [axis];
    the result stacks them along it. *)
Fixpoint concat_elem {A : Type} (t0 : tensor A) (ts : list (tensor A)) (axis : nat)
  (idx : list nat) : A :=
  match ts with
  | [] => elem t0 idx
  | t :: ts' =>
      let k := nth axis idx 0 in
      let d := nth axis (shape t) 0 in
      if k <? d then elem t idx else concat_elem t0 ts' axis (set_axis idx axis (k - d))
  end.

Definition concat {A : Type} (values : list (tensor A)) (axis : nat) : option (tensor A) :=
  match values with
  | [] => None
  | t0 :: _ =>
      if (axis <? rank t0)
         && forallb (fun t => shape_eqb (set_axis (shape t) axis 0)
                                        (set_axis (shape t0) axis 0)) values
      then
        Some (mkTensor (set_axis (shape t0) axis
                                 (list_sum (map (fun t => nth axis (shape t) 0) values)))
                       (concat_elem t0 values axis))
      else None
  end.

(** ** [tf.einsum] with two operands and an explicit output

    The equation ["ab,cd->ef"] names the axes of the two operands and of the
    result.  A label names one size; labels missing from the output are summed
    over. *)

Definition axis_env : Type := list (ascii * nat).

Fixpoint lookup (c : ascii) (env : axis_env) : option nat :=
  match env with
  | [] => None
  | (c', v) :: env' => if Ascii.eqb c' c then Some v else lookup c env'
  end.

Fixpoint split_at (c : ascii) (s : list ascii) : option (list ascii * list ascii) :=
  match s with
  | [] => None
  | x :: s' =>
      if Ascii.eqb x c then Some ([], s')
      else r <- split_at c s' ;; Some (x :: fst r, snd r)
  end.

Definition parse_equation (equation : string)
  : option (list ascii * list ascii * list ascii) :=
  r1 <- split_at ","%char (list_ascii_of_string equation) ;;
  r2 <- split_at "-"%char (snd r1) ;;
  match snd r2 with
  | ">"%char :: out => Some (fst r1, fst r2, out)
  | _ => None
  end.

(** Binds the labels of one operand to the sizes of its axes; a label seen
    before must have the same size. *)
Fixpoint bind_axes (labels : list ascii) (shp : list nat) (env : axis_env)
  : option axis_env :=
  match labels, shp with
  | [], [] => Some env
  | c :: labels', d :: shp' =>
      match lookup c env with
      | Some d' => if d' =? d then bind_axes labels' shp' env else None
      | None => bind_axes labels' shp' (env ++ [(c, d)])
      end
  | _, _ => None
  end.

Fixpoint lookup_all (labels : list ascii) (env : axis_env) : option (list nat) :=
  match labels with
  | [] => Some []
  | c :: labels' =>
      d <- lookup c env ;;
      ds <- lookup_all labels' env ;;
      Some (d :: ds)
  end.

Definition index_at (labels : list ascii) (env : axis_env) : list nat :=
  map (fun c => match lookup c env with Some k => k | None => 0 end) labels.

Fixpoint sum_over (axes : axis_env) (env : axis_env) (body : axis_env -> scalar)
  : scalar :=
  match axes with
  | [] => body env
  | (c, n) :: axes' =>
      fsum (map (fun k => sum_over axes' ((c, k) :: env) body) (seq 0 n))
  end.

Definition einsum (equation : string) (a b : tensor scalar) : option (tensor scalar) :=
  eq <- parse_equation equation ;;
  let '(la, lb, lo) := eq in
  env_a <- bind_axes la (shape a) [] ;;
  env <- bind_axes lb (shape b) env_a ;;
  out_shape <- lookup_all lo env ;;
  let reduced := filter (fun p => negb (existsb (Ascii.eqb (fst p)) lo)) env in
  Some (mkTensor out_shape
          (fun idx =>
             sum_over reduced (combine lo idx)
               (fun env' => fmul (elem a (index_at la env'))
                                 (elem b (index_at lb env'))))).

(** ** [maybe_mask_affinity] *)

(** The default of the parameter [affinity_mask_value]: [float('-inf')]. *)
Definition default_affinity_mask_value : scalar := NInf.

Definition maybe_mask_affinity (affinity : tensor scalar)
  (sequence_length : option (tensor Z)) (affinity_mask_value : scalar)
  : option (tensor scalar) :=
  match sequence_length with
  | None => Some affinity
  | Some sequence_length =>
      maxlen <- dim affinity 1 ;;
      let score_mask := sequence_mask sequence_length maxlen in
      expanded <- expand_dims score_mask 2 ;;
      width <- dim affinity 2 ;;
      score_mask <- tile expanded [1; 1; width] ;;
      let affinity_mask_values := scalar_mul affinity_mask_value (ones_like affinity) in
      where_ score_mask affinity affinity_mask_values
  end.

(** ** The sentinel stubs: both bodies are [pass]. *)

Definition add_sentinel (encoding : tensor scalar) : unit := tt.

Definition remove_sentinel (encoding : tensor scalar) : unit := tt.

(** ** [coattention]

    [coattention_locals] runs the body and keeps every local variable, under
    its name in the source; [coattention] returns the triple of the [return]
    statement. *)

Record locals : Type := mkLocals {
  unmasked_affinity : tensor scalar;
  affinity : tensor scalar;
  attention_p : tensor scalar;
  affinity_t : tensor scalar;
  attention_q : tensor scalar;
  summary_q : tensor scalar;
  summary_d : tensor scalar;
  coattention_d : tensor scalar
}.

Definition coattention_locals (query : tensor scalar) (query_length : option (tensor Z))
  (document : tensor scalar) (document_length : option (tensor Z)) (sentinel : bool)
  : option locals :=
  unmasked_affinity <- einsum "ndh,nqh->ndq" document query ;;
  affinity <- maybe_mask_affinity unmasked_affinity document_length
                default_affinity_mask_value ;;
  attention_p <- softmax affinity 1 ;;
  transposed <- transpose unmasked_affinity [0; 2; 1] ;;
  affinity_t <- maybe_mask_affinity transposed query_length
                  default_affinity_mask_value ;;
  attention_q <- softmax affinity_t 1 ;;
  summary_q <- einsum "ndh,ndq->nqh" document attention_p ;;
  summary_d <- einsum "nqh,nqd->ndh" query attention_q ;;
  coattention_d <- einsum "nqh,nqd->ndh" summary_q attention_q ;;
  Some (mkLocals unmasked_affinity affinity attention_p affinity_t attention_q
                 summary_q summary_d coattention_d).

Definition coattention (query : tensor scalar) (query_length : option (tensor Z))
  (document : tensor scalar) (document_length : option (tensor Z)) (sentinel : bool)
  : option (tensor scalar * tensor scalar * tensor scalar) :=
  l <- coattention_locals query query_length document document_length sentinel ;;
  Some (summary_q l, summary_d l, coattention_d l).

(** ** Layers with trainable parameters *)

Section Layers.

(** The variable store: the value of the trainable variable of a given
    name at a given index.  [tf.layers.dense] asks it for a kernel and a
    bias of the shape it needs. *)
Variable variables : string -> list nat -> scalar.

(** A recurrent cell object together with its weights. *)
Variable RNNCell : Type.

(** [tf.contrib.rnn.LSTMCell(num_units)]; the string is the variable scope
    under which the weights of the new cell are created. *)
Variable LSTMCell : string -> nat -> RNNCell.

(** [tf.nn.bidirectional_dynamic_rnn(cell_fw, cell_bw, inputs,
    sequence_length)]: the pair of forward and backward outputs (the final
    states, which the source discards, are left out). *)
Variable bidirectional_dynamic_rnn :
  RNNCell -> RNNCell -> tensor scalar -> option (tensor Z) ->
  option (tensor scalar * tensor scalar).

Definition get_variable (name : string) (shp : list nat) : tensor scalar :=
  mkTensor shp (variables name).

Definition apply_activation (activation : option (scalar -> scalar)) (x : scalar)
  : scalar :=
  match activation with
  | Some f => f x
  | None => x
  end.

(** [tf.layers.dense(inputs, units, activation)] called under the variable
    scope [scope] with a Python integer for [units]:
    [activation(inputs . kernel + bias)] along the last axis. *)
Definition dense (scope : string) (inputs : tensor scalar) (units : nat)
  (activation : option (scalar -> scalar)) : option (tensor scalar) :=
  if 2 <=? rank inputs then
    let features := last (shape inputs) 0 in
    let kernel := get_variable (scope ++ "/dense/kernel") [features; units] in
    let bias := get_variable (scope ++ "/dense/bias") [units] in
    Some (mkTensor (removelast (shape inputs) ++ [units])
            (fun idx =>
               apply_activation activation
                 (fadd (fsum (map (fun k => fmul (elem inputs (removelast idx ++ [k]))
                                                 (elem kernel [k; last idx 0]))
                                  (seq 0 features)))
                       (elem bias [last idx 0]))))
  else None.

(** What a call can pass as [units]: a Python integer, or a tensor of the
    graph. *)
Inductive units_arg : Type :=
| IntUnits (n : nat)
| TensorUnits (t : tensor Z).

(** [tf.shape(t)[i]]: a scalar int32 tensor of the graph, not a Python
    integer. *)
Definition shape_entry {A : Type} (t : tensor A) (i : nat) : option (tensor Z) :=
  d <- dim t i ;;
  Some (mkTensor [] (fun _ => Z.of_nat d)).

(** [tf.layers.dense] with any [units] argument: the layer needs the number
    of units as a Python integer to build its kernel and raises a TypeError
    on a tensor. *)
Definition layers_dense (scope : string) (inputs : tensor scalar) (units : units_arg)
  (activation : option (scalar -> scalar)) : option (tensor scalar) :=
  match units with
  | IntUnits n => dense scope inputs n activation
  | TensorUnits _ => None
  end.

Definition query_document_encoder (scope : string) (cell_fw cell_bw : RNNCell)
  (query : tensor scalar) (query_length : option (tensor Z))
  (document : tensor scalar) (document_length : option (tensor Z))
  : option (tensor scalar * tensor scalar) :=
  query_fw_bw_encodings <- bidirectional_dynamic_rnn cell_fw cell_bw query query_length ;;
  query_encoding <- concat [fst query_fw_bw_encodings; snd query_fw_bw_encodings] 2 ;;
  units <- shape_entry query_encoding 2 ;;
  query_encoding <- layers_dense scope query_encoding (TensorUnits units) (Some ftanh) ;;
  document_fw_bw_encodings <-
    bidirectional_dynamic_rnn cell_fw cell_bw document document_length ;;
  document_encoding <-
    concat [fst document_fw_bw_encodings; snd document_fw_bw_encodings] 2 ;;
  Some (query_encoding, document_encoding).

Definition encode (state_size : nat) (query : tensor scalar)
  (query_length : option (tensor Z)) (document : tensor scalar)
  (document_length : option (tensor Z)) : option (tensor scalar) :=
  let get_cell (name : string) := LSTMCell name state_size in
  enc <- query_document_encoder "encoder"
           (get_cell "encoder/bidirectional_rnn/fw"%string)
           (get_cell "encoder/bidirectional_rnn/bw"%string)
           query query_length document document_length ;;
  let '(query_encoding, document_encoding) := enc in
  co1 <- coattention query_encoding query_length document_encoding document_length true ;;
  let '(summary_q_1, summary_d_1, coattention_d_1) := co1 in
  senc <- query_document_encoder "summary_encoder"
            (get_cell "summary_encoder/bidirectional_rnn/fw"%string)
            (get_cell "summary_encoder/bidirectional_rnn/bw"%string)
            summary_q_1 query_length summary_d_1 document_length ;;
  let '(summary_q_encoding, summary_d_encoding) := senc in
  co2 <- coattention summary_q_encoding query_length summary_d_encoding
           document_length false ;;
  let '(_, summary_d_2, coattention_d_2) := co2 in
  let document_representations :=
    [document_encoding; summary_d_encoding; summary_d_1; summary_d_2;
     coattention_d_1; coattention_d_2] in
  document_representation <- concat document_representations 2 ;;
  outputs <- bidirectional_dynamic_rnn
               (get_cell "final_encoder/bidirectional_rnn/fw"%string)
               (get_cell "final_encoder/bidirectional_rnn/bw"%string)
               document_representation document_length ;;
  concat [fst outputs; snd outputs] 2.

Definition decode (encoding : tensor scalar) : option (tensor scalar * tensor scalar) :=
  start_logit <- dense "decode_start" encoding 1 None ;;
  let start_logit := squeeze start_logit in
  end_logit <- dense "decode_end" encoding 1 None ;;
  let end_logit := squeeze end_logit in
  Some (start_logit, end_logit).

End Layers.

Arguments query_document_encoder variables {RNNCell} bidirectional_dynamic_rnn
  scope cell_fw cell_bw query query_length document document_length.
Arguments encode variables {RNNCell} LSTMCell bidirectional_dynamic_rnn
  state_size query query_length document document_length.

(** ** What the locals of [coattention] hold, index by index

    This record only collects, for operands of shapes [N, Q, H] and
    [N, D, H] and one length per batch element, the element-wise reading of
    each statement of the body; [coattention_locals_some] below proves it of
    the embedding. *)

Record coattention_facts (query document : tensor scalar) (ql dl : tensor Z)
  (N Q D H : nat) (l : locals) : Prop := mkFacts {
  unmasked_affinity_elem : forall n d q,
    elem (unmasked_affinity l) [n; d; q] =
    fsum (map (fun h => fmul (elem document [n; d; h]) (elem query [n; q; h]))
              (seq 0 H));
  affinity_elem : forall n d q, n < N -> d < D -> q < Q ->
    elem (affinity l) [n; d; q] =
    if Z.ltb (Z.of_nat d) (cast_int32 (elem dl [n]))
    then elem (unmasked_affinity l) [n; d; q] else NInf;
  attention_p_shape : shape (attention_p l) = [N; D; Q];
  attention_p_elem : forall n d q,
    elem (attention_p l) [n; d; q] =
    softmax_column (map (fun k => elem (affinity l) [n; k; q]) (seq 0 D))
                   (elem (affinity l) [n; d; q]);
  affinity_t_elem : forall n q d, n < N -> q < Q -> d < D ->
    elem (affinity_t l) [n; q; d] =
    if Z.ltb (Z.of_nat q) (cast_int32 (elem ql [n]))
    then elem (unmasked_affinity l) [n; d; q] else NInf;
  attention_q_shape : shape (attention_q l) = [N; Q; D];
  attention_q_elem : forall n q d,
    elem (attention_q l) [n; q; d] =
    softmax_column (map (fun k => elem (affinity_t l) [n; k; d]) (seq 0 Q))
                   (elem (affinity_t l) [n; q; d]);
  summary_q_shape : shape (summary_q l) = [N; Q; H];
  summary_q_elem : forall n q h,
    elem (summary_q l) [n; q; h] =
    fsum (map (fun d => fmul (elem document [n; d; h]) (elem (attention_p l) [n; d; q]))
              (seq 0 D));
  summary_d_shape : shape (summary_d l) = [N; D; H];
  summary_d_elem : forall n d h,
    elem (summary_d l) [n; d; h] =
    fsum (map (fun q => fmul (elem query [n; q; h]) (elem (attention_q l) [n; q; d]))
              (seq 0 Q));
  coattention_d_shape : shape (coattention_d l) = [N; D; H];
  coattention_d_elem : forall n d h,
    elem (coattention_d l) [n; d; h] =
    fsum (map (fun q => fmul (elem (summary_q l) [n; q; h])
                             (elem (attention_q l) [n; q; d]))
              (seq 0 Q))
}.

(** An entry of a masked column is either a number or the mask [-inf]. *)
Definition masked_entry (x : scalar) : Prop := x = NInf \/ is_num x.

(** ** Sample inputs

    [ones shp] is [tf.ones(shp)]; [lengths N v] is a length vector with [N]
    entries equal to [v]. *)

Definition ones (shp : list nat) : tensor scalar := mkTensor shp (fun _ => Num 1%R).

Definition lengths (N : nat) (v : Z) : tensor Z := mkTensor [N] (fun _ => v).

(** A stand-in recurrence for sample runs (both directions return the
    inputs) and a variable store holding zeros. *)
Definition sample_rnn (cell_fw cell_bw : unit) (inputs : tensor scalar)
  (sequence_length : option (tensor Z)) : option (tensor scalar * tensor scalar) :=
  Some (inputs, inputs).

Definition zero_variables (name : string) (idx : list nat) : scalar := Num 0%R.

(** Sample tensors that differ from [ones]: outside batch element 0, at
    position 1 of axis 1, with a NaN at position 1 of axis 1, and with a NaN
    at position 0 of axis 1. *)
Definition ones_then_twos (shp : list nat) : tensor scalar :=
  mkTensor shp (fun idx => match idx with 0 :: _ => Num 1%R | _ => Num 2%R end).

Definition one_then_fives (shp : list nat) : tensor scalar :=
  mkTensor shp (fun idx => match idx with [_; 0; _] => Num 1%R | _ => Num 5%R end).

Definition one_then_nan (shp : list nat) : tensor scalar :=
  mkTensor shp (fun idx => match idx with [_; 0; _] => Num 1%R | _ => NaN end).



(** * Properties *)

(** ** Sample evaluations of the tensor operations *)

Example parse_affinity_equation :
  parse_equation "ndh,nqh->ndq"
  = Some (["n"; "d"; "h"]%char, ["n"; "q"; "h"]%char, ["n"; "d"; "q"]%char).
Proof. reflexivity. Qed.

Example sequence_mask_sample :
  map (fun i => elem (sequence_mask (lengths 1 2) 3) [0; i]) [0; 1; 2]
  = [true; true; false].
Proof. reflexivity. Qed.

Example squeeze_sample : shape (squeeze (ones [1; 2; 1])) = [2].
Proof. reflexivity. Qed.

Example transpose_shape_sample :
  option_map shape (transpose (ones [1; 3; 2]) [0; 2; 1]) = Some [1; 2; 3].
Proof. reflexivity. Qed.

Example einsum_shape_sample :
  option_map shape (einsum "ndh,nqh->ndq" (ones [1; 3; 10]) (ones [1; 2; 10]))
  = Some [1; 3; 2].
Proof. reflexivity. Qed.

Example einsum_batch_mismatch :
  einsum "ndh,nqh->ndq" (ones [1; 3; 10]) (ones [2; 2; 10]) = None.
Proof. reflexivity. Qed.

Example mask_length_mismatch :
  maybe_mask_affinity (ones [2; 3; 2]) (Some (lengths 1 2)) NInf = None.
Proof. reflexivity. Qed.

Example coattention_shapes_sample :
  option_map (fun r => (shape (fst (fst r)), shape (snd (fst r)), shape (snd r)))
    (coattention (ones [1; 2; 10]) (Some (lengths 1 2))
                 (ones [1; 3; 10]) (Some (lengths 1 2)) true)
  = Some ([1; 2; 10], [1; 3; 10], [1; 3; 10]).
Proof. reflexivity. Qed.

Example sequence_mask_wraps :
  map (fun i => elem (sequence_mask (lengths 1 (2 ^ 32 + 2)) 3) [0; i]) [0; 1; 2]
  = [true; true; false].
Proof. reflexivity. Qed.

(** ** Scalars *)

Lemma Rsgn_pos (r : R) : (0 < r)%R -> Rsgn r = Gt.
Proof.
  intros H. unfold Rsgn. destruct (total_order_T r 0) as [[Hlt | Heq] | Hgt]; trivial; lra.
Qed.

Lemma fmul_NInf_one : fmul NInf (Num 1) = NInf.
Proof. simpl. rewrite Rsgn_pos by lra. reflexivity. Qed.

Lemma fmul_NaN_r (x : scalar) : fmul x NaN = NaN.
Proof. destruct x; reflexivity. Qed.

Lemma fmul_NaN_l (x : scalar) : fmul NaN x = NaN.
Proof. reflexivity. Qed.

Lemma fadd_NaN_l (x : scalar) : fadd NaN x = NaN.
Proof. destruct x; reflexivity. Qed.

Lemma fadd_NaN_r (x : scalar) : fadd x NaN = NaN.
Proof. destruct x; reflexivity. Qed.

Lemma fsum_cons (x : scalar) (l : list scalar) : fsum (x :: l) = fadd x (fsum l).
Proof. reflexivity. Qed.

(** A sum that has a NaN term is NaN. *)
Lemma fsum_NaN (l : list scalar) : In NaN l -> fsum l = NaN.
Proof.
  induction l as [| x l IH]; intros H.
  - contradiction.
  - rewrite fsum_cons. destruct H as [-> | H].
    + apply fadd_NaN_l.
    + rewrite (IH H). apply fadd_NaN_r.
Qed.

Lemma cast_int32_small (z : Z) :
  (- 2 ^ 31 <= z < 2 ^ 31)%Z -> cast_int32 z = z.
Proof.
  intros H. unfold cast_int32. rewrite Z.mod_small; lia.
Qed.

(** *** Rounding *)

Section Rounding.

Hypothesis Hfmt : format_ok fmt.

Lemma fmax_ge_1 : (1 <= fmax)%R.
Proof. pose proof (fint_ge_1 fmt Hfmt). pose proof (fint_le_fmax fmt Hfmt). lra. Qed.

Lemma rnd_0 : rnd 0 = 0%R.
Proof.
  apply (rnd_nat fmt Hfmt 0). simpl. pose proof (fint_ge_1 fmt Hfmt). lra.
Qed.

Lemma rnd_1 : rnd 1 = 1%R.
Proof.
  apply (rnd_nat fmt Hfmt 1). simpl. apply (fint_ge_1 fmt Hfmt).
Qed.

(** A real result whose rounding is within the finite range is returned
    rounded. *)
Lemma to_float_in_range (x : R) :
  (- fmax <= rnd x <= fmax)%R -> to_float x = Num (rnd x).
Proof.
  intros H. unfold to_float.
  destruct (Rlt_dec fmax (rnd x)); [lra |].
  destruct (Rlt_dec (rnd x) (- fmax)); [lra | reflexivity].
Qed.

Lemma to_float_between (k j : nat) (v : R) :
  (INR k <= v <= INR j)%R -> (INR j <= fint)%R ->
  exists y, to_float v = Num y /\ (INR k <= y <= INR j)%R.
Proof.
  intros Hv Hj.
  assert (Hk : (INR k <= fint)%R) by lra.
  pose proof (rnd_monotone fmt Hfmt _ _ (proj1 Hv)) as H1.
  pose proof (rnd_monotone fmt Hfmt _ _ (proj2 Hv)) as H2.
  rewrite (rnd_nat fmt Hfmt k Hk) in H1. rewrite (rnd_nat fmt Hfmt j Hj) in H2.
  pose proof (fint_le_fmax fmt Hfmt). pose proof (pos_INR k).
  exists (rnd v). split; [| lra].
  apply to_float_in_range. lra.
Qed.

Lemma to_float_0 : to_float 0 = Num 0.
Proof.
  rewrite to_float_in_range; rewrite rnd_0; [reflexivity |].
  pose proof fmax_ge_1. lra.
Qed.

Lemma to_float_1 : to_float 1 = Num 1.
Proof.
  rewrite to_float_in_range; rewrite rnd_1; [reflexivity |].
  pose proof fmax_ge_1. lra.
Qed.

(** A result between 0 and 1 is returned as a number between 0 and 1. *)
Lemma to_float_unit (v : R) :
  (0 <= v <= 1)%R -> exists y, to_float v = Num y /\ (0 <= y <= 1)%R.
Proof.
  intros Hv.
  destruct (to_float_between 0 1 v) as (y & E & B).
  - simpl. exact Hv.
  - simpl. apply (fint_ge_1 fmt Hfmt).
  - exists y. split; [exact E |]. simpl in B. exact B.
Qed.

End Rounding.

(** ** Tensor operations at rank 3 *)

Lemma shape_eqb_refl (s : list nat) : shape_eqb s s = true.
Proof. unfold shape_eqb. destruct (list_eq_dec Nat.eq_dec s s); congruence. Qed.

Lemma mod_small_index (n N : nat) : n < N -> n mod N = n.
Proof. intros H. apply Nat.mod_small. exact H. Qed.

(** What [maybe_mask_affinity] computes on a rank-3 tensor and a length
    vector with one entry per batch element. *)
Lemma maybe_mask_affinity_some (A : tensor scalar) (len : tensor Z) (v : scalar)
  (N L1 L2 : nat) :
  shape A = [N; L1; L2] ->
  shape len = [N] ->
  exists M,
    maybe_mask_affinity A (Some len) v = Some M /\
    shape M = [N; L1; L2] /\
    forall n i j, n < N -> i < L1 -> j < L2 ->
      elem M [n; i; j] =
      if Z.ltb (Z.of_nat i) (cast_int32 (elem len [n])) then elem A [n; i; j]
      else fmul v (Num 1).
Proof.
  intros HA Hlen.
  unfold maybe_mask_affinity, dim, expand_dims, tile, where_, rank; simpl.
  rewrite HA, Hlen; simpl.
  rewrite Nat.mul_1_r, Nat.mul_1_r, Nat.add_0_r.
  rewrite shape_eqb_refl. simpl.
  eexists. split; [reflexivity |]. simpl. split; [reflexivity |].
  intros n i j Hn Hi Hj.
  rewrite (mod_small_index n N Hn), (mod_small_index i L1 Hi).
  reflexivity.
Qed.

(** The three Einstein summations of [coattention], on operands of matching
    shapes. *)

Ltac einsum_unfold Ha Hb :=
  unfold einsum;
  cbn -[fsum seq fmul]; rewrite Ha, Hb; cbn -[fsum seq fmul];
  rewrite ?Nat.eqb_refl; cbn -[fsum seq fmul];
  eexists; split; [reflexivity |]; split; [reflexivity |];
  intros; cbn -[fsum seq fmul]; reflexivity.

Lemma einsum_ndh_nqh_ndq (a b : tensor scalar) (N D Q H : nat) :
  shape a = [N; D; H] ->
  shape b = [N; Q; H] ->
  exists t,
    einsum "ndh,nqh->ndq" a b = Some t /\
    shape t = [N; D; Q] /\
    forall n d q,
      elem t [n; d; q] =
      fsum (map (fun h => fmul (elem a [n; d; h]) (elem b [n; q; h])) (seq 0 H)).
Proof. intros Ha Hb. einsum_unfold Ha Hb. Qed.

Lemma einsum_ndh_ndq_nqh (a b : tensor scalar) (N D Q H : nat) :
  shape a = [N; D; H] ->
  shape b = [N; D; Q] ->
  exists t,
    einsum "ndh,ndq->nqh" a b = Some t /\
    shape t = [N; Q; H] /\
    forall n q h,
      elem t [n; q; h] =
      fsum (map (fun d => fmul (elem a [n; d; h]) (elem b [n; d; q])) (seq 0 D)).
Proof. intros Ha Hb. einsum_unfold Ha Hb. Qed.

Lemma einsum_nqh_nqd_ndh (a b : tensor scalar) (N D Q H : nat) :
  shape a = [N; Q; H] ->
  shape b = [N; Q; D] ->
  exists t,
    einsum "nqh,nqd->ndh" a b = Some t /\
    shape t = [N; D; H] /\
    forall n d h,
      elem t [n; d; h] =
      fsum (map (fun q => fmul (elem a [n; q; h]) (elem b [n; q; d])) (seq 0 Q)).
Proof. intros Ha Hb. einsum_unfold Ha Hb. Qed.

Lemma transpose_021 (t : tensor scalar) (N D Q : nat) :
  shape t = [N; D; Q] ->
  exists t',
    transpose t [0; 2; 1] = Some t' /\
    shape t' = [N; Q; D] /\
    forall n q d, elem t' [n; q; d] = elem t [n; d; q].
Proof.
  intros Ht. unfold transpose, rank. rewrite Ht. simpl.
  eexists. split; [reflexivity |]. split; [reflexivity |].
  intros. reflexivity.
Qed.

Lemma softmax_axis1 (t : tensor scalar) (N A B : nat) :
  shape t = [N; A; B] ->
  exists p,
    softmax t 1 = Some p /\
    shape p = [N; A; B] /\
    forall n i j,
      elem p [n; i; j] =
      softmax_column (map (fun k => elem t [n; k; j]) (seq 0 A)) (elem t [n; i; j]).
Proof.
  intros Ht. unfold softmax, dim. rewrite Ht. simpl.
  eexists. split; [reflexivity |]. split; [reflexivity |].
  intros. reflexivity.
Qed.

(** ** The body of [coattention], statement by statement *)

Ltac bind_inv H :=
  repeat match type of H with
         | bind ?c _ = Some _ =>
             let E := fresh "E" in
             destruct c eqn:E; [simpl in H | discriminate H]
         end.

Lemma coattention_locals_inv (query document : tensor scalar)
  (query_length document_length : option (tensor Z)) (sentinel : bool) (l : locals) :
  coattention_locals query query_length document document_length sentinel = Some l ->
  einsum "ndh,nqh->ndq" document query = Some (unmasked_affinity l) /\
  maybe_mask_affinity (unmasked_affinity l) document_length NInf = Some (affinity l) /\
  softmax (affinity l) 1 = Some (attention_p l) /\
  (exists transposed,
      transpose (unmasked_affinity l) [0; 2; 1] = Some transposed /\
      maybe_mask_affinity transposed query_length NInf = Some (affinity_t l)) /\
  softmax (affinity_t l) 1 = Some (attention_q l) /\
  einsum "ndh,ndq->nqh" document (attention_p l) = Some (summary_q l) /\
  einsum "nqh,nqd->ndh" query (attention_q l) = Some (summary_d l) /\
  einsum "nqh,nqd->ndh" (summary_q l) (attention_q l) = Some (coattention_d l).
Proof.
  intros H. unfold coattention_locals, default_affinity_mask_value in H.
  bind_inv H. injection H as <-. simpl.
  repeat split; trivial.
  eexists. split; eassumption.
Qed.

(** On well-shaped arguments the body runs to its end, and its locals are as
    [coattention_facts] reads them. *)
Lemma coattention_locals_some (query document : tensor scalar) (ql dl : tensor Z)
  (sentinel : bool) (N Q D H : nat) :
  shape query = [N; Q; H] ->
  shape document = [N; D; H] ->
  shape ql = [N] ->
  shape dl = [N] ->
  exists l,
    coattention_locals query (Some ql) document (Some dl) sentinel = Some l /\
    coattention_facts query document ql dl N Q D H l.
Proof.
  intros Hq Hd Hql Hdl.
  unfold coattention_locals, default_affinity_mask_value.
  destruct (einsum_ndh_nqh_ndq document query N D Q H Hd Hq) as (ua & E1 & S1 & F1).
  rewrite E1. cbn [bind].
  destruct (maybe_mask_affinity_some ua dl NInf N D Q S1 Hdl) as (aff & E2 & S2 & F2).
  rewrite E2. cbn [bind].
  destruct (softmax_axis1 aff N D Q S2) as (ap & E3 & S3 & F3).
  rewrite E3. cbn [bind].
  destruct (transpose_021 ua N D Q S1) as (tr & E4 & S4 & F4).
  rewrite E4. cbn [bind].
  destruct (maybe_mask_affinity_some tr ql NInf N Q D S4 Hql) as (afft & E5 & S5 & F5).
  rewrite E5. cbn [bind].
  destruct (softmax_axis1 afft N Q D S5) as (aq & E6 & S6 & F6).
  rewrite E6. cbn [bind].
  destruct (einsum_ndh_ndq_nqh document ap N D Q H Hd S3) as (sq & E7 & S7 & F7).
  rewrite E7. cbn [bind].
  destruct (einsum_nqh_nqd_ndh query aq N D Q H Hq S6) as (sd & E8 & S8 & F8).
  rewrite E8. cbn [bind].
  destruct (einsum_nqh_nqd_ndh sq aq N D Q H S7 S6) as (cd & E9 & S9 & F9).
  rewrite E9. cbn [bind].
  eexists. split; [reflexivity |].
  constructor; cbn [unmasked_affinity affinity attention_p affinity_t attention_q
                    summary_q summary_d coattention_d]; trivial.
  - intros n d q Hn Hd' Hq'. rewrite (F2 n d q Hn Hd' Hq'), fmul_NInf_one. reflexivity.
  - intros n q d Hn Hq' Hd'.
    rewrite (F5 n q d Hn Hq' Hd'), F4, fmul_NInf_one. reflexivity.
Qed.


(** ** Columns of a softmax *)

(** In a column that is masked throughout, every weight is NaN: the maximum
    is -inf and -inf minus -inf is NaN. *)
Lemma fmaximum_all_masked (l : list scalar) :
  (forall x, In x l -> x = NInf) -> fmaximum l = NInf.
Proof.
  induction l as [| x l IH]; intros H.
  - reflexivity.
  - simpl. rewrite IH by (intros y Hy; apply H; right; exact Hy).
    rewrite (H x (or_introl eq_refl)). reflexivity.
Qed.

Lemma softmax_all_masked (l : list scalar) (x : scalar) :
  (forall y, In y l -> y = NInf) -> x = NInf ->
  softmax_column l x = NaN.
Proof.
  intros Hl ->. unfold softmax_column. rewrite (fmaximum_all_masked l Hl). reflexivity.
Qed.

(** The maximum of a column of numbers and masks, one entry at least being
    a number, is the largest number of the column. *)
Lemma fmaximum_masked (l : list scalar) :
  Forall masked_entry l ->
  (fmaximum l = NInf /\ forall x, In x l -> x = NInf) \/
  (exists m, fmaximum l = Num m /\ In (Num m) l /\
             forall r, In (Num r) l -> (r <= m)%R).
Proof.
  induction 1 as [| x l Hx Hl IH].
  - left. split; [reflexivity | intros x []].
  - simpl. destruct Hx as [-> | [a ->]]; destruct IH as [[E Hall] | (m & E & Hin & Hle)];
      rewrite E.
    + left. split; [reflexivity |]. intros y [<- | Hy]; [reflexivity | apply Hall, Hy].
    + right. exists m. split; [reflexivity |]. split; [right; exact Hin |].
      intros r [Hr | Hr]; [discriminate Hr | apply Hle, Hr].
    + right. exists a. split; [reflexivity |]. split; [left; reflexivity |].
      intros r [Hr | Hr].
      * injection Hr as ->. lra.
      * specialize (Hall _ Hr). discriminate Hall.
    + right. simpl. destruct (Rle_dec a m) as [Ham | Ham].
      * exists m. split; [reflexivity |]. split; [right; exact Hin |].
        intros r [Hr | Hr]; [injection Hr as <-; exact Ham | apply Hle, Hr].
      * exists a. split; [reflexivity |]. split; [left; reflexivity |].
        intros r [Hr | Hr]; [injection Hr as <-; lra |].
        specialize (Hle r Hr). lra.
Qed.

Section Columns.

Hypothesis Hfmt : format_ok fmt.

(** An entry of the column, shifted by the maximum [m] and exponentiated, is
    a number between 0 and 1: 0 for a masked entry, 1 for the maximum. *)
Lemma shifted_exp (x : scalar) (m : R) :
  x = NInf \/ (exists r, x = Num r /\ (r <= m)%R) ->
  exists e, fexp (fsub x (Num m)) = Num e /\ (0 <= e <= 1)%R /\
            (x = NInf -> e = 0%R) /\ (x = Num m -> e = 1%R).
Proof.
  intros [-> | (r & -> & Hr)].
  - exists 0%R. simpl. repeat split; try lra; try discriminate.
  - unfold fsub. simpl fneg. simpl fadd. unfold to_float.
    assert (H0 : (rnd (r + - m) <= 0)%R).
    { rewrite <- (rnd_0 Hfmt). apply (rnd_monotone fmt Hfmt). lra. }
    pose proof (fmax_ge_1 Hfmt) as Hmax.
    destruct (Rlt_dec fmax (rnd (r + - m))); [lra |].
    destruct (Rlt_dec (rnd (r + - m)) (- fmax)).
    + exists 0%R. simpl. repeat split; try lra; try discriminate.
      intros E. injection E as ->. exfalso.
      replace (m + - m)%R with 0%R in r0 by ring. rewrite (rnd_0 Hfmt) in r0. lra.
    + simpl fexp.
      destruct (to_float_unit Hfmt (exp (rnd (r + - m)))) as (e & E & B).
      { split; [left; apply exp_pos |].
        rewrite <- exp_0. destruct H0 as [H0 | H0].
        - left. apply exp_increasing. exact H0.
        - rewrite H0. right. reflexivity. }
      exists e. split; [exact E |]. split; [exact B |]. split; [discriminate |].
      intros Em. injection Em as ->.
      replace (m + - m)%R with 0%R in E by ring.
      rewrite (rnd_0 Hfmt), exp_0, (to_float_1 Hfmt) in E. injection E as <-. reflexivity.
Qed.

(** A sum of numbers between 0 and 1, no more of them than the format counts
    exactly, is a number between 0 and their count, and at least 1 if one
    term is 1. *)
Lemma fsum_unit (l : list scalar) :
  (forall x, In x l -> exists e, x = Num e /\ (0 <= e <= 1)%R) ->
  (INR (length l) <= fint)%R ->
  exists s, fsum l = Num s /\ (0 <= s <= INR (length l))%R /\
            (In (Num 1) l -> (1 <= s)%R).
Proof.
  induction l as [| x l IH]; intros Hl Hlen.
  - exists 0%R. simpl. repeat split; try lra; try (intros []).
  - assert (Hlen' : (INR (length l) <= fint)%R).
    { cbn [length] in Hlen. rewrite S_INR in Hlen. lra. }
    destruct (IH (fun y Hy => Hl y (or_intror Hy)) Hlen') as (s & Es & Bs & Os).
    destruct (Hl x (or_introl eq_refl)) as (e & -> & Be).
    rewrite fsum_cons, Es. simpl fadd.
    assert (Hv : (INR 0 <= e + s <= INR (length (Num e :: l)))%R).
    { cbn [length]. rewrite S_INR. simpl. lra. }
    destruct (to_float_between Hfmt 0 (length (Num e :: l)) (e + s) Hv Hlen)
      as (y & Ey & By).
    exists y. split; [exact Ey |]. split; [simpl in By |- *; exact By |].
    intros Hone.
    assert (H1 : (1 <= e + s)%R).
    { destruct Hone as [E1 | Hin]; [injection E1 as ->; lra | specialize (Os Hin); lra]. }
    destruct (to_float_between Hfmt 1 (length (Num e :: l)) (e + s)) as (y' & Ey' & By').
    + simpl INR at 1. split; [exact H1 | apply Hv].
    + exact Hlen.
    + rewrite Ey in Ey'. injection Ey' as <-. simpl in By'. lra.
Qed.

(** The weights of a column of numbers and masks that holds a number and is
    no longer than the format counts exactly: each weight is [e / s],
    rounded, where [e] is the shifted exponential of the entry and [s], the
    sum of the shifted exponentials, is at least 1; it is a number between 0
    and 1, and exactly 0 at a masked entry. *)
Lemma softmax_column_weights (l : list scalar) :
  Forall masked_entry l ->
  (exists r, In (Num r) l) ->
  (INR (length l) <= fint)%R ->
  exists m s,
    fmaximum l = Num m /\
    fsum (map (fun y => fexp (fsub y (Num m))) l) = Num s /\
    (1 <= s <= INR (length l))%R /\
    forall x, In x l ->
      exists e w,
        fexp (fsub x (Num m)) = Num e /\ (0 <= e <= 1)%R /\
        softmax_column l x = to_float (e / s) /\
        to_float (e / s) = Num w /\ (0 <= w <= 1)%R /\
        (x = NInf -> w = 0%R).
Proof.
  intros Hl (r0 & Hr0) Hlen.
  destruct (fmaximum_masked l Hl) as [[_ Hall] | (m & Em & Hin & Hle)].
  { specialize (Hall _ Hr0). discriminate Hall. }
  assert (Hentry : forall x, In x l -> x = NInf \/ (exists r, x = Num r /\ (r <= m)%R)).
  { intros x Hx. pose proof (proj1 (Forall_forall _ _) Hl x Hx) as [-> | [r ->]].
    - left. reflexivity.
    - right. exists r. split; [reflexivity | apply Hle, Hx]. }
  destruct (fsum_unit (map (fun y => fexp (fsub y (Num m))) l)) as (s & Es & Bs & Os).
  { intros y Hy. apply in_map_iff in Hy. destruct Hy as (x & <- & Hx).
    destruct (shifted_exp x m (Hentry x Hx)) as (e & E & B & _). exists e. auto. }
  { rewrite length_map. exact Hlen. }
  rewrite length_map in Bs.
  assert (Hs1 : (1 <= s)%R).
  { apply Os. apply in_map_iff. exists (Num m). split; [| exact Hin].
    destruct (shifted_exp (Num m) m) as (e & E & _ & _ & E1).
    - right. exists m. split; [reflexivity | lra].
    - rewrite E, (E1 eq_refl). reflexivity. }
  exists m, s. split; [exact Em |]. split; [exact Es |]. split; [lra |].
  intros x Hx.
  destruct (shifted_exp x m (Hentry x Hx)) as (e & E & B & E0 & _).
  assert (Hq : (0 <= e / s <= 1)%R).
  { assert (Hinv : (0 < / s)%R) by (apply Rinv_0_lt_compat; lra).
    assert (Hone : (s * / s = 1)%R) by (apply Rinv_r; lra).
    unfold Rdiv. split; nra. }
  destruct (to_float_unit Hfmt (e / s) Hq) as (w & Ew & Bw).
  exists e, w. split; [exact E |]. split; [exact B |].
  split; [| split; [exact Ew |]; split; [exact Bw |]].
  - unfold softmax_column. rewrite Em, Es, E. simpl. rewrite Rsgn_pos by lra. reflexivity.
  - intros Hx0. rewrite (E0 Hx0) in Ew.
    replace (0 / s)%R with 0%R in Ew by (unfold Rdiv; ring).
    rewrite (to_float_0 Hfmt) in Ew. injection Ew as <-. reflexivity.
Qed.

End Columns.

(** ** The attention weights of [coattention] *)

Section Attention.

Variables (query document : tensor scalar) (ql dl : tensor Z).
Variables (N Q D H : nat) (l : locals).
Hypothesis Hfacts : coattention_facts query document ql dl N Q D H l.

Lemma all_masked_attention_p (n d q : nat) :
  n < N -> d < D -> q < Q ->
  (cast_int32 (elem dl [n]) <= 0)%Z ->
  elem (attention_p l) [n; d; q] = NaN.
Proof.
  intros Hn Hd Hq Hlen.
  assert (Hm : forall k, k < D -> elem (affinity l) [n; k; q] = NInf).
  { intros k Hk. rewrite (affinity_elem _ _ _ _ _ _ _ _ _ Hfacts) by assumption.
    destruct (Z.ltb_spec (Z.of_nat k) (cast_int32 (elem dl [n]))); [lia | reflexivity]. }
  rewrite (attention_p_elem _ _ _ _ _ _ _ _ _ Hfacts).
  apply softmax_all_masked; [| apply Hm, Hd].
  intros y Hy. apply in_map_iff in Hy. destruct Hy as (k & <- & Hk).
  apply in_seq in Hk. apply Hm. lia.
Qed.

Lemma all_masked_attention_q (n q d : nat) :
  n < N -> q < Q -> d < D ->
  (cast_int32 (elem ql [n]) <= 0)%Z ->
  elem (attention_q l) [n; q; d] = NaN.
Proof.
  intros Hn Hq Hd Hlen.
  assert (Hm : forall k, k < Q -> elem (affinity_t l) [n; k; d] = NInf).
  { intros k Hk. rewrite (affinity_t_elem _ _ _ _ _ _ _ _ _ Hfacts) by assumption.
    destruct (Z.ltb_spec (Z.of_nat k) (cast_int32 (elem ql [n]))); [lia | reflexivity]. }
  rewrite (attention_q_elem _ _ _ _ _ _ _ _ _ Hfacts).
  apply softmax_all_masked; [| apply Hm, Hq].
  intros y Hy. apply in_map_iff in Hy. destruct Hy as (k & <- & Hk).
  apply in_seq in Hk. apply Hm. lia.
Qed.

Hypothesis Hfmt : format_ok fmt.

(** The column [q] of [attention_p] for a batch element [n] whose unpadded
    affinities in that column are numbers (no NaN, no overflow). *)
Lemma attention_p_column (n q : nat) :
  n < N -> q < Q -> 0 < D -> (INR D <= fint)%R ->
  (1 <= cast_int32 (elem dl [n]))%Z ->
  (forall k, k < D -> (Z.of_nat k < cast_int32 (elem dl [n]))%Z ->
     is_num (elem (unmasked_affinity l) [n; k; q])) ->
  exists m s,
    fmaximum (map (fun k => elem (affinity l) [n; k; q]) (seq 0 D)) = Num m /\
    fsum (map (fun k => fexp (fsub (elem (affinity l) [n; k; q]) (Num m))) (seq 0 D))
      = Num s /\
    (1 <= s <= INR D)%R /\
    forall d, d < D ->
      exists e w,
        fexp (fsub (elem (affinity l) [n; d; q]) (Num m)) = Num e /\ (0 <= e <= 1)%R /\
        elem (attention_p l) [n; d; q] = to_float (e / s) /\
        to_float (e / s) = Num w /\ (0 <= w <= 1)%R /\
        ((cast_int32 (elem dl [n]) <= Z.of_nat d)%Z -> w = 0%R).
Proof.
  intros Hn Hq HD HDf Hlen Hnum.
  set (col := map (fun k => elem (affinity l) [n; k; q]) (seq 0 D)).
  assert (Haff : forall k, k < D ->
            elem (affinity l) [n; k; q] =
            if Z.ltb (Z.of_nat k) (cast_int32 (elem dl [n]))
            then elem (unmasked_affinity l) [n; k; q] else NInf).
  { intros k Hk. apply (affinity_elem _ _ _ _ _ _ _ _ _ Hfacts); assumption. }
  destruct (softmax_column_weights Hfmt col) as (m & s & Em & Es & Bs & W).
  - apply Forall_forall. intros y Hy. apply in_map_iff in Hy.
    destruct Hy as (k & <- & Hk). apply in_seq in Hk. rewrite Haff by lia.
    destruct (Z.ltb_spec (Z.of_nat k) (cast_int32 (elem dl [n]))).
    + right. apply Hnum; [lia | assumption].
    + left. reflexivity.
  - destruct (Hnum 0 HD) as [r Hr]; [lia |].
    exists r. apply in_map_iff. exists 0. split; [| apply in_seq; lia].
    rewrite Haff by lia.
    destruct (Z.ltb_spec (Z.of_nat 0) (cast_int32 (elem dl [n]))); [exact Hr | lia].
  - unfold col. rewrite length_map, length_seq. exact HDf.
  - unfold col in Bs. rewrite length_map, length_seq in Bs.
    exists m, s. split; [exact Em |]. split.
    + unfold col in Es. rewrite map_map in Es. exact Es.
    + split; [exact Bs |]. intros d Hd.
      destruct (W (elem (affinity l) [n; d; q])) as (e & w & E & Be & Ew & Ew' & Bw & Z0).
      { apply in_map_iff. exists d. split; [reflexivity | apply in_seq; lia]. }
      exists e, w. split; [exact E |]. split; [exact Be |].
      split; [rewrite (attention_p_elem _ _ _ _ _ _ _ _ _ Hfacts); exact Ew |].
      split; [exact Ew' |]. split; [exact Bw |].
      intros Hpad. apply Z0. rewrite Haff by assumption.
      destruct (Z.ltb_spec (Z.of_nat d) (cast_int32 (elem dl [n]))); [lia | reflexivity].
Qed.

Lemma attention_q_column (n d : nat) :
  n < N -> d < D -> 0 < Q -> (INR Q <= fint)%R ->
  (1 <= cast_int32 (elem ql [n]))%Z ->
  (forall k, k < Q -> (Z.of_nat k < cast_int32 (elem ql [n]))%Z ->
     is_num (elem (unmasked_affinity l) [n; d; k])) ->
  exists m s,
    fmaximum (map (fun k => elem (affinity_t l) [n; k; d]) (seq 0 Q)) = Num m /\
    fsum (map (fun k => fexp (fsub (elem (affinity_t l) [n; k; d]) (Num m))) (seq 0 Q))
      = Num s /\
    (1 <= s <= INR Q)%R /\
    forall q, q < Q ->
      exists e w,
        fexp (fsub (elem (affinity_t l) [n; q; d]) (Num m)) = Num e /\ (0 <= e <= 1)%R /\
        elem (attention_q l) [n; q; d] = to_float (e / s) /\
        to_float (e / s) = Num w /\ (0 <= w <= 1)%R /\
        ((cast_int32 (elem ql [n]) <= Z.of_nat q)%Z -> w = 0%R).
Proof.
  intros Hn Hd HQ HQf Hlen Hnum.
  set (col := map (fun k => elem (affinity_t l) [n; k; d]) (seq 0 Q)).
  assert (Haff : forall k, k < Q ->
            elem (affinity_t l) [n; k; d] =
            if Z.ltb (Z.of_nat k) (cast_int32 (elem ql [n]))
            then elem (unmasked_affinity l) [n; d; k] else NInf).
  { intros k Hk. apply (affinity_t_elem _ _ _ _ _ _ _ _ _ Hfacts); assumption. }
  destruct (softmax_column_weights Hfmt col) as (m & s & Em & Es & Bs & W).
  - apply Forall_forall. intros y Hy. apply in_map_iff in Hy.
    destruct Hy as (k & <- & Hk). apply in_seq in Hk. rewrite Haff by lia.
    destruct (Z.ltb_spec (Z.of_nat k) (cast_int32 (elem ql [n]))).
    + right. apply Hnum; [lia | assumption].
    + left. reflexivity.
  - destruct (Hnum 0 HQ) as [r Hr]; [lia |].
    exists r. apply in_map_iff. exists 0. split; [| apply in_seq; lia].
    rewrite Haff by lia.
    destruct (Z.ltb_spec (Z.of_nat 0) (cast_int32 (elem ql [n]))); [exact Hr | lia].
  - unfold col. rewrite length_map, length_seq. exact HQf.
  - unfold col in Bs. rewrite length_map, length_seq in Bs.
    exists m, s. split; [exact Em |]. split.
    + unfold col in Es. rewrite map_map in Es. exact Es.
    + split; [exact Bs |]. intros q Hq.
      destruct (W (elem (affinity_t l) [n; q; d])) as (e & w & E & Be & Ew & Ew' & Bw & Z0).
      { apply in_map_iff. exists q. split; [reflexivity | apply in_seq; lia]. }
      exists e, w. split; [exact E |]. split; [exact Be |].
      split; [rewrite (attention_q_elem _ _ _ _ _ _ _ _ _ Hfacts); exact Ew |].
      split; [exact Ew' |]. split; [exact Bw |].
      intros Hpad. apply Z0. rewrite Haff by assumption.
      destruct (Z.ltb_spec (Z.of_nat q) (cast_int32 (elem ql [n]))); [lia | reflexivity].
Qed.

End Attention.

Lemma coattention_of_locals (query document : tensor scalar)
  (query_length document_length : option (tensor Z)) (sentinel : bool) (l : locals) :
  coattention_locals query query_length document document_length sentinel = Some l ->
  coattention query query_length document document_length sentinel =
  Some (summary_q l, summary_d l, coattention_d l).
Proof. intros E. unfold coattention. rewrite E. reflexivity. Qed.

(** * The claims *)


(** The affinities of encodings of ones are numbers. *)
Lemma ones_affinity_num (shp shp' : list nat) (ql dl : tensor Z) (N Q D H : nat)
  (l : locals) :
  format_ok fmt ->
  coattention_facts (ones shp) (ones shp') ql dl N Q D H l ->
  (INR H <= fint)%R ->
  forall n d q, is_num (elem (unmasked_affinity l) [n; d; q]).
Proof.
  intros Hfmt F HH n d q.
  rewrite (unmasked_affinity_elem _ _ _ _ _ _ _ _ _ F).
  destruct (fsum_unit Hfmt
              (map (fun h => fmul (elem (ones shp') [n; d; h]) (elem (ones shp) [n; q; h]))
                   (seq 0 H))) as (s & Es & _).
  - intros x Hx. apply in_map_iff in Hx. destruct Hx as (h & <- & _).
    exists 1%R. split; [| lra]. simpl.
    replace (1 * 1)%R with 1%R by ring. apply (to_float_1 Hfmt).
  - rewrite length_map, length_seq. exact HH.
  - exists s. exact Es.
Qed.

(** The locals of a run on well-shaped arguments are as [coattention_facts]
    reads them. *)
Lemma coattention_locals_facts_of_run (query document : tensor scalar)
  (ql dl : tensor Z) (sentinel : bool) (N Q D H : nat) (l : locals) :
  shape query = [N; Q; H] ->
  shape document = [N; D; H] ->
  shape ql = [N] ->
  shape dl = [N] ->
  coattention_locals query (Some ql) document (Some dl) sentinel = Some l ->
  coattention_facts query document ql dl N Q D H l.
Proof.
  intros Hq Hd Hql Hdl E.
  destruct (coattention_locals_some query document ql dl sentinel N Q D H Hq Hd Hql Hdl)
    as (l0 & E0 & F).
  assert (l0 = l) by congruence. subst l0. exact F.
Qed.









(** C2.  On encodings of shapes [N, Q, 2H] and [N, D, 2H] and length vectors
    of shape [N], [coattention] returns [(summary_q, summary_d,
    coattention_d)] with
    [summary_q[n,q,:] = sum_d document[n,d,:] * attention_p[n,d,q]],
    [summary_d[n,d,:] = sum_q query[n,q,:] * attention_q[n,q,d]] and
    [coattention_d[n,d,:] = sum_q summary_q[n,q,:] * attention_q[n,q,d]],
    where [attention_p] is the axis-1 softmax of the affinity masked by the
    document lengths and [attention_q] the axis-1 softmax of the transposed
    affinity masked by the query lengths. *)
Theorem coattention_summaries (query document : tensor scalar) (ql dl : tensor Z)
  (sentinel : bool) (N Q D H : nat) :
  shape query = [N; Q; H] ->
  shape document = [N; D; H] ->
  shape ql = [N] ->
  shape dl = [N] ->
  exists l,
    coattention_locals query (Some ql) document (Some dl) sentinel = Some l /\
    coattention query (Some ql) document (Some dl) sentinel =
      Some (summary_q l, summary_d l, coattention_d l) /\
    (shape (summary_q l) = [N; Q; H] /\
     shape (summary_d l) = [N; D; H] /\
     shape (coattention_d l) = [N; D; H]) /\
    (forall n q h,
        elem (summary_q l) [n; q; h] =
        fsum (map (fun d => fmul (elem document [n; d; h])
                                 (elem (attention_p l) [n; d; q])) (seq 0 D))) /\
    (forall n d h,
        elem (summary_d l) [n; d; h] =
        fsum (map (fun q => fmul (elem query [n; q; h])
                                 (elem (attention_q l) [n; q; d])) (seq 0 Q))) /\
    (forall n d h,
        elem (coattention_d l) [n; d; h] =
        fsum (map (fun q => fmul (elem (summary_q l) [n; q; h])
                                 (elem (attention_q l) [n; q; d])) (seq 0 Q))) /\
    (forall n d q,
        elem (unmasked_affinity l) [n; d; q] =
        fsum (map (fun h => fmul (elem document [n; d; h]) (elem query [n; q; h]))
                  (seq 0 H))) /\
    (maybe_mask_affinity (unmasked_affinity l) (Some dl) NInf = Some (affinity l) /\
     softmax (affinity l) 1 = Some (attention_p l)) /\
    (exists transposed,
        transpose (unmasked_affinity l) [0; 2; 1] = Some transposed /\
        maybe_mask_affinity transposed (Some ql) NInf = Some (affinity_t l) /\
        softmax (affinity_t l) 1 = Some (attention_q l)).
Proof.
  intros Hq Hd Hql Hdl.
  destruct (coattention_locals_some query document ql dl sentinel N Q D H Hq Hd Hql Hdl)
    as (l & E & F).
  destruct (coattention_locals_inv _ _ _ _ _ _ E)
    as (_ & Em & Ep & (tr & Et & Emt) & Eq & _).
  exists l. split; [exact E |].
  split; [apply coattention_of_locals, E |].
  destruct F. repeat split; trivial.
  exists tr. repeat split; assumption.
Qed.


(** C3 (as amended).  On an affinity tensor [A] of shape [N, L1, L2] and a
    length vector of shape [N] whose entries fit int32 (to which
    [tf.sequence_mask] casts them), [maybe_mask_affinity] returns a tensor [M]
    of the shape of [A] with [M[n,i,j] = A[n,i,j]] where [i < len[n]] and
    [M[n,i,j]] the mask value times one where [i >= len[n]]: -inf by default,
    the mask value itself when it is a value of the format; and with [None]
    for the lengths it returns its input. *)
Theorem maybe_mask_affinity_masks_axis_1 (A : tensor scalar) (len : tensor Z)
  (v : scalar) (N L1 L2 : nat) :
  shape A = [N; L1; L2] ->
  shape len = [N] ->
  (exists M,
      maybe_mask_affinity A (Some len) v = Some M /\
      shape M = shape A /\
      forall n i j, n < N -> i < L1 -> j < L2 ->
        (- 2 ^ 31 <= elem len [n] < 2 ^ 31)%Z ->
        ((Z.of_nat i < elem len [n])%Z -> elem M [n; i; j] = elem A [n; i; j]) /\
        ((elem len [n] <= Z.of_nat i)%Z -> elem M [n; i; j] = fmul v (Num 1))) /\
  default_affinity_mask_value = NInf /\
  fmul NInf (Num 1) = NInf /\
  (forall r, rnd r = r -> (- fmax <= r <= fmax)%R -> fmul (Num r) (Num 1) = Num r) /\
  maybe_mask_affinity A None v = Some A.
Proof.
  intros HA Hlen.
  split; [| split; [reflexivity | split; [apply fmul_NInf_one | split; [| reflexivity]]]].
  - destruct (maybe_mask_affinity_some A len v N L1 L2 HA Hlen) as (M & E & S & F).
    exists M. split; [exact E |]. split; [congruence |].
    intros n i j Hn Hi Hj H32. rewrite (F n i j Hn Hi Hj).
    rewrite (cast_int32_small _ H32).
    destruct (Z.ltb_spec (Z.of_nat i) (elem len [n])); split; intros; trivial; lia.
  - intros r Hr Hb. simpl. replace (r * 1)%R with r by ring.
    unfold to_float. rewrite Hr.
    destruct (Rlt_dec fmax r); [lra |].
    destruct (Rlt_dec r (- fmax)); [lra | reflexivity].
Qed.

(** C6.  [coattention] with [sentinel=True] returns what it returns with
    [sentinel=False]: the flag is not read.  No sentinel is appended (the
    results have the shapes [N, Q, 2H], [N, D, 2H], [N, D, 2H] of the
    arguments), and the two stubs do nothing. *)
Theorem sentinel_flag_is_inert (query document : tensor scalar)
  (query_length document_length : option (tensor Z)) :
  coattention query query_length document document_length true =
  coattention query query_length document document_length false /\
  coattention_locals query query_length document document_length true =
  coattention_locals query query_length document document_length false /\
  add_sentinel query = tt /\
  remove_sentinel query = tt /\
  forall ql dl N Q D H,
    query_length = Some ql -> document_length = Some dl ->
    shape query = [N; Q; H] -> shape document = [N; D; H] ->
    shape ql = [N] -> shape dl = [N] ->
    exists sq sd cd,
      coattention query query_length document document_length true = Some (sq, sd, cd) /\
      shape sq = [N; Q; H] /\ shape sd = [N; D; H] /\ shape cd = [N; D; H].
Proof.
  repeat split.
  intros ql dl N Q D H -> -> Hq Hd Hql Hdl.
  destruct (coattention_locals_some query document ql dl true N Q D H Hq Hd Hql Hdl)
    as (l & E & F).
  exists (summary_q l), (summary_d l), (coattention_d l).
  split; [apply coattention_of_locals, E |].
  destruct F. repeat split; assumption.
Qed.

(** C7.  When [document_length[n] = 0], the whole document axis of batch
    element [n] is masked and every [attention_p[n, d, q]] is NaN;
    [coattention] does not reject the input, and the NaN reaches the
    results: [summary_q[n, q, :]] and [coattention_d[n, d, :]] are NaN. *)
Theorem zero_document_length_gives_nan (query document : tensor scalar)
  (ql dl : tensor Z) (sentinel : bool) (N Q D H n : nat) :
  shape query = [N; Q; H] ->
  shape document = [N; D; H] ->
  shape ql = [N] ->
  shape dl = [N] ->
  n < N ->
  elem dl [n] = 0%Z ->
  exists l,
    coattention_locals query (Some ql) document (Some dl) sentinel = Some l /\
    coattention query (Some ql) document (Some dl) sentinel =
      Some (summary_q l, summary_d l, coattention_d l) /\
    (forall d q, d < D -> q < Q ->
       elem (affinity l) [n; d; q] = NInf /\
       elem (attention_p l) [n; d; q] = NaN) /\
    (0 < D -> forall q h, q < Q -> elem (summary_q l) [n; q; h] = NaN) /\
    (0 < D -> 0 < Q -> forall d h, elem (coattention_d l) [n; d; h] = NaN).
Proof.
  intros Hq Hd Hql Hdl Hn Hzero.
  destruct (coattention_locals_some query document ql dl sentinel N Q D H Hq Hd Hql Hdl)
    as (l & E & F).
  exists l. split; [exact E |].
  split; [apply coattention_of_locals, E |].
  assert (Hp : forall d q, d < D -> q < Q -> elem (attention_p l) [n; d; q] = NaN).
  { intros d q HdD HqQ.
    apply (all_masked_attention_p query document ql dl N Q D H l F); trivial.
    rewrite Hzero. discriminate. }
  assert (Hs : 0 < D -> forall q h, q < Q -> elem (summary_q l) [n; q; h] = NaN).
  { intros HD q h HqQ.
    rewrite (summary_q_elem _ _ _ _ _ _ _ _ _ F).
    apply fsum_NaN. apply in_map_iff. exists 0. split.
    - rewrite (Hp 0 q HD HqQ). apply fmul_NaN_r.
    - apply in_seq. lia. }
  split; [| split; [exact Hs |]].
  - intros d q HdD HqQ. split; [| apply Hp; assumption].
    rewrite (affinity_elem _ _ _ _ _ _ _ _ _ F) by assumption.
    rewrite Hzero. change (cast_int32 0) with 0%Z.
    destruct (Z.ltb_spec (Z.of_nat d) 0); [lia | reflexivity].
  - intros HD HQ d h.
    rewrite (coattention_d_elem _ _ _ _ _ _ _ _ _ F).
    apply fsum_NaN. apply in_map_iff. exists 0. split.
    + rewrite (Hs HD 0 h HQ). destruct (elem (attention_q l) [n; 0; d]); reflexivity.
    + apply in_seq. lia.
Qed.


(** ** Columns of a softmax when nothing rounds *)





Section Normalized.

Variables (query document : tensor scalar) (ql dl : tensor Z).
Variables (N Q D H : nat) (l : locals).
Hypothesis Hfacts : coattention_facts query document ql dl N Q D H l.



Hypothesis Hfmt : format_ok fmt.
Hypothesis Hid : forall x, rnd x = x.



End Normalized.


(** ** A sample run with padding *)

Section Sample.

Hypothesis Hfmt : format_ok fmt.

Lemma fadd_0_0 : fadd (Num 0) (Num 0) = Num 0.
Proof. simpl. replace (0 + 0)%R with 0%R by ring. apply (to_float_0 Hfmt). Qed.

Lemma fadd_1_0 : fadd (Num 1) (Num 0) = Num 1.
Proof. simpl. replace (1 + 0)%R with 1%R by ring. apply (to_float_1 Hfmt). Qed.

Lemma fmul_1_1 : fmul (Num 1) (Num 1) = Num 1.
Proof. simpl. replace (1 * 1)%R with 1%R by ring. apply (to_float_1 Hfmt). Qed.


(** The weights of the column [1, -inf]: 1 and 0. *)
Lemma softmax_column_one_masked :
  softmax_column [Num 1; NInf] (Num 1) = Num 1 /\
  softmax_column [Num 1; NInf] NInf = Num 0.
Proof.
  unfold softmax_column. cbn [fmaximum fold_right fmax2 map].
  assert (E1 : fexp (fsub (Num 1) (Num 1)) = Num 1).
  { unfold fsub. simpl fneg. simpl fadd. replace (1 + - (1))%R with 0%R by ring.
    rewrite (to_float_0 Hfmt). simpl. rewrite exp_0. apply (to_float_1 Hfmt). }
  assert (E2 : fexp (fsub NInf (Num 1)) = Num 0) by reflexivity.
  rewrite E1, E2.
  assert (Es : fsum [Num 1; Num 0] = Num 1).
  { rewrite !fsum_cons. change (fsum []) with (Num 0). rewrite fadd_0_0. apply fadd_1_0. }
  rewrite Es. simpl. rewrite Rsgn_pos by lra.
  replace (1 / 1)%R with 1%R by field. replace (0 / 1)%R with 0%R by field.
  split; [apply (to_float_1 Hfmt) | apply (to_float_0 Hfmt)].
Qed.


End Sample.


(** ** The layers with parameters *)

Section LayerProperties.

Variable variables : string -> list nat -> scalar.
Variable RNNCell : Type.
Variable bidirectional_dynamic_rnn :
  RNNCell -> RNNCell -> tensor scalar -> option (tensor Z) ->
  option (tensor scalar * tensor scalar).

Lemma dense_rank3 (scope : string) (x : tensor scalar) (units : nat)
  (activation : option (scalar -> scalar)) (N T F : nat) :
  shape x = [N; T; F] ->
  exists y,
    dense variables scope x units activation = Some y /\
    shape y = [N; T; units] /\
    forall n t u,
      elem y [n; t; u] =
      apply_activation activation
        (fadd (fsum (map (fun k => fmul (elem x [n; t; k])
                                        (variables (scope ++ "/dense/kernel") [k; u]))
                         (seq 0 F)))
              (variables (scope ++ "/dense/bias") [u])).
Proof.
  intros Hx. unfold dense, rank. rewrite Hx. simpl.
  eexists. split; [reflexivity |]. split; [reflexivity |].
  intros. reflexivity.
Qed.

(** The shapes [decode] returns: every axis of size 1 is gone, the batch
    axis too. *)
Lemma decode_shapes (encoding : tensor scalar) (N D F : nat) :
  shape encoding = [N; D; F] ->
  exists start_logit end_logit,
    decode variables encoding = Some (start_logit, end_logit) /\
    shape start_logit = filter (fun d => negb (d =? 1)) [N; D] /\
    shape end_logit = filter (fun d => negb (d =? 1)) [N; D].
Proof.
  intros He. unfold decode.
  destruct (dense_rank3 "decode_start" encoding 1 None N D F He) as (s & Es & Ss & _).
  destruct (dense_rank3 "decode_end" encoding 1 None N D F He) as (e & Ee & Se & _).
  rewrite Es, Ee. cbn [bind].
  eexists. eexists. split; [reflexivity |].
  unfold squeeze. cbn [shape]. rewrite Ss, Se. simpl.
  destruct (N =? 1), (D =? 1); simpl; split; reflexivity.
Qed.

(** Line 95 passes [tf.shape(query_encoding)[2]], a tensor, as [units]: the
    dense layer raises and no call of [query_document_encoder] returns,
    whatever the recurrence does. *)
Lemma query_document_encoder_none (scope : string) (cell_fw cell_bw : RNNCell)
  (query document : tensor scalar) (query_length document_length : option (tensor Z)) :
  query_document_encoder variables bidirectional_dynamic_rnn scope cell_fw cell_bw
    query query_length document document_length = None.
Proof.
  unfold query_document_encoder.
  destruct (bidirectional_dynamic_rnn cell_fw cell_bw query query_length) as [qo |];
    cbn [bind]; [| reflexivity].
  destruct (concat [fst qo; snd qo] 2) as [qcat |]; cbn [bind]; [| reflexivity].
  destruct (shape_entry qcat 2) as [units |]; reflexivity.
Qed.

End LayerProperties.

(** C4.  On an encoding of shape [N, D, F], [decode] returns [start_logit]
    and [end_logit] of one shape, which is [N, D] with every axis of size 1
    removed: [tf.squeeze] is called without an axis.  With a batch of one
    ([N = 1]) and [D >= 2] the shape is [D], not [N, D]: the batch axis is
    lost. *)
Theorem decode_loses_batch_axis_of_one (variables : string -> list nat -> scalar)
  (encoding : tensor scalar) (N D F : nat) :
  shape encoding = [N; D; F] ->
  exists start_logit end_logit,
    decode variables encoding = Some (start_logit, end_logit) /\
    shape start_logit = filter (fun d => negb (d =? 1)) [N; D] /\
    shape end_logit = filter (fun d => negb (d =? 1)) [N; D] /\
    (2 <= N -> 2 <= D -> shape start_logit = [N; D] /\ shape end_logit = [N; D]) /\
    (N = 1 -> 2 <= D -> shape start_logit = [D] /\ shape end_logit = [D]).
Proof.
  intros He.
  destruct (decode_shapes variables encoding N D F He) as (s & e & E & Ss & Se).
  exists s, e. split; [exact E |]. split; [exact Ss |]. split; [exact Se |].
  rewrite Ss, Se. simpl. split.
  - intros HN HD.
    destruct (Nat.eqb_spec N 1); [lia |]. destruct (Nat.eqb_spec D 1); [lia |].
    simpl. split; reflexivity.
  - intros HN HD. subst N.
    destruct (Nat.eqb_spec D 1); [lia |].
    simpl. split; reflexivity.
Qed.


(** C5.  [query_document_encoder] applies no projection at all: the call of
    [tf.layers.dense] on the query branch (line 95) is given
    [tf.shape(query_encoding)[2]], a tensor of the graph, as its number of
    units, and raises; so no call of [query_document_encoder] returns a
    query or a document encoding.  On a rank-3 [query_encoding] of shape
    [N, Q, F] the same layer called with the Python integer [F] returns a
    tensor of shape [N, Q, F]. *)
Theorem projection_units_is_a_tensor (variables : string -> list nat -> scalar)
  (RNNCell : Type)
  (bidirectional_dynamic_rnn :
     RNNCell -> RNNCell -> tensor scalar -> option (tensor Z) ->
     option (tensor scalar * tensor scalar))
  (scope : string) (cell_fw cell_bw : RNNCell) :
  (forall query query_length document document_length,
     query_document_encoder variables bidirectional_dynamic_rnn scope cell_fw cell_bw
       query query_length document document_length = None) /\
  (forall query_encoding N Q F,
     shape query_encoding = [N; Q; F] ->
     exists units,
       shape_entry query_encoding 2 = Some units /\
       shape units = [] /\ elem units [] = Z.of_nat F /\
       layers_dense variables scope query_encoding (TensorUnits units) (Some ftanh) = None /\
       exists projected,
         layers_dense variables scope query_encoding (IntUnits F) (Some ftanh)
           = Some projected /\
         shape projected = [N; Q; F]).
Proof.
  split.
  - intros. apply query_document_encoder_none.
  - intros qe N Q F Hs. unfold shape_entry, dim. rewrite Hs. cbn [nth_error bind].
    eexists. split; [reflexivity |]. split; [reflexivity |]. split; [reflexivity |].
    split; [reflexivity |].
    destruct (dense_rank3 variables scope qe F (Some ftanh) N Q F Hs) as (y & Ey & Sy & _).
    exists y. split; [exact Ey | exact Sy].
Qed.

(** C9.  Both recurrences of [query_document_encoder] are given the same
    [cell_fw] and [cell_bw], but the comparison the claim describes cannot
    be run: fed the same sequence and lengths as query and as document, the
    call does not return (the dense layer of line 95 raises between the two
    recurrences), so there is no document encoding to compare. *)
Theorem identical_sequences_give_no_encodings (variables : string -> list nat -> scalar)
  (RNNCell : Type)
  (bidirectional_dynamic_rnn :
     RNNCell -> RNNCell -> tensor scalar -> option (tensor Z) ->
     option (tensor scalar * tensor scalar))
  (scope : string) (cell_fw cell_bw : RNNCell)
  (sequence : tensor scalar) (sequence_length : option (tensor Z)) :
  query_document_encoder variables bidirectional_dynamic_rnn scope cell_fw cell_bw
    sequence sequence_length sequence sequence_length = None.
Proof. apply query_document_encoder_none. Qed.

(** ** When the functions reject their arguments *)

Lemma shape_eqb_true (s1 s2 : list nat) : shape_eqb s1 s2 = true -> s1 = s2.
Proof.
  unfold shape_eqb. destruct (list_eq_dec Nat.eq_dec s1 s2); [trivial | discriminate].
Qed.

(** With a length vector, [maybe_mask_affinity] returns only on a rank-3
    affinity and a rank-1 vector with one length per batch element. *)
Lemma maybe_mask_affinity_inv (A M : tensor scalar) (len : tensor Z) (v : scalar) :
  maybe_mask_affinity A (Some len) v = Some M ->
  exists N L1 L2, shape A = [N; L1; L2] /\ shape len = [N].
Proof.
  unfold maybe_mask_affinity, dim, expand_dims, tile, where_, rank.
  cbn [shape sequence_mask].
  intros E.
  destruct (shape len) as [| a [| b more]] eqn:Hlen;
    destruct (shape A) as [| N [| L1 [| L2 rest]]] eqn:HA;
    cbn in E; try discriminate E.
  - rewrite !Nat.mul_1_r, Nat.add_0_r in E.
    destruct (shape_eqb [a; L1; L2] (N :: L1 :: L2 :: rest)) eqn:Es;
      [| discriminate E].
    apply shape_eqb_true in Es. injection Es as -> <-.
    exists N, L1, L2. split; reflexivity.
  - exfalso. rewrite length_app in E. cbn in E.
    replace (length more + 1) with (S (length more)) in E by lia.
    cbn in E. discriminate E.
Qed.

(** The affinity equation binds the batch and feature axes of its two
    operands to one size each. *)
Lemma einsum_ndh_nqh_ndq_inv (a b t : tensor scalar) :
  einsum "ndh,nqh->ndq" a b = Some t ->
  exists N D Q H, shape a = [N; D; H] /\ shape b = [N; Q; H].
Proof.
  unfold einsum. cbn -[fsum seq fmul]. intros E.
  destruct (shape a) as [| N [| D [| H [| x ra]]]] eqn:Ha;
    cbn -[fsum seq fmul] in E; try discriminate E.
  destruct (shape b) as [| N' [| Q [| H' [| y rb]]]] eqn:Hb;
    cbn -[fsum seq fmul] in E; try discriminate E.
  all: destruct (Nat.eqb_spec N N'); [| discriminate E];
    cbn -[fsum seq fmul] in E; try discriminate E.
  all: destruct (Nat.eqb_spec H H'); [| discriminate E];
    cbn -[fsum seq fmul] in E; try discriminate E.
  subst. exists N', D, Q, H'. split; reflexivity.
Qed.

(** What a run of [coattention] that returns says of its arguments. *)
Lemma coattention_locals_facts (query document : tensor scalar) (ql dl : tensor Z)
  (sentinel : bool) (l : locals) :
  coattention_locals query (Some ql) document (Some dl) sentinel = Some l ->
  exists N Q D H,
    shape query = [N; Q; H] /\ shape document = [N; D; H] /\
    shape ql = [N] /\ shape dl = [N] /\
    coattention_facts query document ql dl N Q D H l.
Proof.
  intros E.
  destruct (coattention_locals_inv _ _ _ _ _ _ E)
    as (Ea & Em & _ & (tr & Et & Emt) & _).
  destruct (einsum_ndh_nqh_ndq_inv _ _ _ Ea) as (N & D & Q & H & Sd & Sq).
  destruct (einsum_ndh_nqh_ndq document query N D Q H Sd Sq) as (ua & Ea' & Sua & _).
  assert (ua = unmasked_affinity l) by congruence. subst ua.
  destruct (maybe_mask_affinity_inv _ _ _ _ Em) as (N1 & L1 & L2 & Sua' & Sdl).
  assert (N1 = N) by congruence. subst N1.
  destruct (transpose_021 (unmasked_affinity l) N D Q Sua) as (tr' & Et' & Str & _).
  assert (tr' = tr) by congruence. subst tr'.
  destruct (maybe_mask_affinity_inv _ _ _ _ Emt) as (N2 & L3 & L4 & Str' & Sql).
  assert (N2 = N) by congruence. subst N2.
  destruct (coattention_locals_some query document ql dl sentinel N Q D H Sq Sd Sql Sdl)
    as (l0 & E0 & F).
  assert (l0 = l) by congruence. subst l0.
  exists N, Q, D, H. auto.
Qed.


(** * Further properties *)

(** X7.  Given a length vector, [maybe_mask_affinity] returns a tensor
    exactly when the affinity has rank 3, of some shape [N, L1, L2], and the
    length vector has shape [N]; any other ranks or a different number of
    lengths are rejected. *)
Theorem maybe_mask_affinity_returns_iff (A : tensor scalar) (len : tensor Z) (v : scalar) :
  (exists M, maybe_mask_affinity A (Some len) v = Some M) <->
  (exists N L1 L2, shape A = [N; L1; L2] /\ shape len = [N]).
Proof.
  split.
  - intros (M & E). apply (maybe_mask_affinity_inv A M len v E).
  - intros (N & L1 & L2 & HA & Hlen).
    destruct (maybe_mask_affinity_some A len v N L1 L2 HA Hlen) as (M & E & _).
    exists M. exact E.
Qed.

(** X8.  Given two length vectors, [coattention] returns exactly when the
    encodings have shapes [N, Q, H] and [N, D, H] with one batch size and one
    feature size, and each length vector has shape [N]. *)
Theorem coattention_returns_iff (query document : tensor scalar) (ql dl : tensor Z)
  (sentinel : bool) :
  (exists r, coattention query (Some ql) document (Some dl) sentinel = Some r) <->
  (exists N Q D H,
      shape query = [N; Q; H] /\ shape document = [N; D; H] /\
      shape ql = [N] /\ shape dl = [N]).
Proof.
  split.
  - intros (r & E). unfold coattention in E.
    destruct (coattention_locals query (Some ql) document (Some dl) sentinel)
      as [l |] eqn:El; [| discriminate E].
    destruct (coattention_locals_facts query document ql dl sentinel l El)
      as (N & Q & D & H & Sq & Sd & Sql & Sdl & _).
    exists N, Q, D, H. auto.
  - intros (N & Q & D & H & Sq & Sd & Sql & Sdl).
    destruct (coattention_locals_some query document ql dl sentinel N Q D H Sq Sd Sql Sdl)
      as (l & E & _).
    eexists. apply coattention_of_locals, E.
Qed.

(** X11.  Masking twice is masking once: on the result of
    [maybe_mask_affinity] the same call with the same lengths and mask value
    returns a tensor with the same shape and the same entries. *)
Theorem maybe_mask_affinity_idempotent (A : tensor scalar) (len : tensor Z) (v : scalar)
  (N L1 L2 : nat) :
  shape A = [N; L1; L2] ->
  shape len = [N] ->
  exists M M',
    maybe_mask_affinity A (Some len) v = Some M /\
    maybe_mask_affinity M (Some len) v = Some M' /\
    shape M' = shape M /\
    forall n i j, n < N -> i < L1 -> j < L2 -> elem M' [n; i; j] = elem M [n; i; j].
Proof.
  intros HA Hlen.
  destruct (maybe_mask_affinity_some A len v N L1 L2 HA Hlen) as (M & E & S & F).
  destruct (maybe_mask_affinity_some M len v N L1 L2 S Hlen) as (M' & E' & S' & F').
  exists M, M'. split; [exact E |]. split; [exact E' |]. split; [congruence |].
  intros n i j Hn Hi Hj.
  rewrite (F' n i j Hn Hi Hj), (F n i j Hn Hi Hj).
  destruct (Z.ltb (Z.of_nat i) (cast_int32 (elem len [n]))); reflexivity.
Qed.

(** X13.  [decode] on an encoding of any rank: an encoding of rank below 2
    is rejected; on an encoding of shape [s ++ [F]] with [s] not empty both
    logits have the shape [s] with every axis of size 1 removed.  So a rank-2
    encoding [N, F] with [N >= 2] gives logits of shape [N]. *)
Theorem decode_shape_any_rank (variables : string -> list nat -> scalar)
  (encoding : tensor scalar) :
  (rank encoding < 2 -> decode variables encoding = None) /\
  (forall s F, s <> [] -> shape encoding = s ++ [F] ->
     exists start_logit end_logit,
       decode variables encoding = Some (start_logit, end_logit) /\
       shape start_logit = filter (fun d => negb (d =? 1)) s /\
       shape end_logit = filter (fun d => negb (d =? 1)) s).
Proof.
  split.
  - intros Hr. unfold decode, dense.
    destruct (Nat.leb_spec 2 (rank encoding)); [lia | reflexivity].
  - intros s F Hs He. unfold decode, dense.
    assert (Hr : 2 <= rank encoding).
    { unfold rank. rewrite He, length_app.
      destruct s; [congruence | cbn [length]; lia]. }
    destruct (Nat.leb_spec 2 (rank encoding)); [| lia].
    cbn [bind]. eexists. eexists. split; [reflexivity |].
    unfold squeeze. cbn [shape]. rewrite He, removelast_last, filter_app. simpl.
    rewrite app_nil_r. split; reflexivity.
Qed.

(** X14.  The logits of [decode].  With [N >= 2] and [D >= 2],
    [start_logit[n, d]] is the projection of [encoding[n, d, :]] by the kernel
    and bias of the scope [decode_start], and [end_logit[n, d]] the one by
    those of [decode_end]: each logit reads one position of the encoding and
    the variables of its own scope.  With [N = 1] the same values sit at
    [start_logit[d]] and [end_logit[d]]. *)
Theorem decode_logit_values (variables : string -> list nat -> scalar)
  (encoding : tensor scalar) (N D F : nat) :
  shape encoding = [N; D; F] ->
  2 <= D ->
  exists start_logit end_logit,
    decode variables encoding = Some (start_logit, end_logit) /\
    (2 <= N -> forall n d,
       elem start_logit [n; d] =
         fadd (fsum (map (fun k => fmul (elem encoding [n; d; k])
                                        (variables "decode_start/dense/kernel"%string [k; 0]))
                         (seq 0 F)))
              (variables "decode_start/dense/bias"%string [0]) /\
       elem end_logit [n; d] =
         fadd (fsum (map (fun k => fmul (elem encoding [n; d; k])
                                        (variables "decode_end/dense/kernel"%string [k; 0]))
                         (seq 0 F)))
              (variables "decode_end/dense/bias"%string [0])) /\
    (N = 1 -> forall d,
       elem start_logit [d] =
         fadd (fsum (map (fun k => fmul (elem encoding [0; d; k])
                                        (variables "decode_start/dense/kernel"%string [k; 0]))
                         (seq 0 F)))
              (variables "decode_start/dense/bias"%string [0]) /\
       elem end_logit [d] =
         fadd (fsum (map (fun k => fmul (elem encoding [0; d; k])
                                        (variables "decode_end/dense/kernel"%string [k; 0]))
                         (seq 0 F)))
              (variables "decode_end/dense/bias"%string [0])).
Proof.
  intros He HD. unfold decode, dense, rank. rewrite He. cbn [length Nat.leb bind].
  eexists. eexists. split; [reflexivity |].
  assert (HD1 : (D =? 1) = false) by (apply Nat.eqb_neq; lia).
  split.
  - intros HN n d.
    assert (HN1 : (N =? 1) = false) by (apply Nat.eqb_neq; lia).
    unfold squeeze. cbn [elem shape removelast app last unsqueeze_index get_variable
                         apply_activation].
    rewrite HN1, HD1. cbn. split; reflexivity.
  - intros -> d.
    unfold squeeze. cbn [elem shape removelast app last unsqueeze_index get_variable
                         apply_activation].
    rewrite HD1. cbn. split; reflexivity.
Qed.


(** X1.  The counterpart of C1 on the query axis: for a batch element [n]
    whose query length [L] satisfies [1 <= L < Q] and fits int32, a query axis no
    longer than the format counts exactly, and a document position [d] whose
    unpadded affinities [unmasked_affinity[n, d, q]], [q < L], are numbers,
    the weight [attention_q[n, q, d]] is exactly zero at every query
    position [q >= L]. *)
Theorem padding_attention_q_is_zero (query document : tensor scalar) (ql dl : tensor Z)
  (sentinel : bool) (N Q D H : nat) :
  format_ok fmt ->
  shape query = [N; Q; H] ->
  shape document = [N; D; H] ->
  shape ql = [N] ->
  shape dl = [N] ->
  (INR Q <= fint)%R ->
  exists l,
    coattention_locals query (Some ql) document (Some dl) sentinel = Some l /\
    forall n q d,
      n < N -> d < D ->
      (1 <= elem ql [n] < Z.of_nat Q)%Z ->
      (elem ql [n] < 2 ^ 31)%Z ->
      (forall k, k < Q -> (Z.of_nat k < elem ql [n])%Z ->
         is_num (elem (unmasked_affinity l) [n; d; k])) ->
      (elem ql [n] <= Z.of_nat q)%Z -> q < Q ->
      elem (attention_q l) [n; q; d] = Num 0.
Proof.
  intros Hfmt Hq Hd Hql Hdl HQf.
  destruct (coattention_locals_some query document ql dl sentinel N Q D H Hq Hd Hql Hdl)
    as (l & E & F).
  exists l. split; [exact E |].
  intros n q d Hn Hd' HL H32 Hnum HLq HqQ.
  assert (Hc : cast_int32 (elem ql [n]) = elem ql [n]) by (apply cast_int32_small; lia).
  destruct (attention_q_column query document ql dl N Q D H l F Hfmt n d)
    as (m & s & _ & _ & _ & W); trivial; try lia.
  - rewrite Hc. exact Hnum.
  - destruct (W q HqQ) as (e & w & _ & _ & Ew & Ew' & _ & Z0).
    rewrite Ew, Ew', Z0; [reflexivity | lia].
Qed.

(** X2.  Every attention weight of a column whose unpadded affinities are
    numbers is a number between 0 and 1: [attention_p[n, d, q]] when
    [1 <= document_length[n]] and the affinities [unmasked_affinity[n, k, q]],
    [k < document_length[n]], are numbers; [attention_q[n, q, d]] when
    [1 <= query_length[n]] and the affinities [unmasked_affinity[n, d, k]],
    [k < query_length[n]], are numbers.  The lengths fit int32 and the axes
    are no longer than the format counts exactly. *)
Theorem attention_weights_in_unit_interval (query document : tensor scalar)
  (ql dl : tensor Z) (sentinel : bool) (N Q D H : nat) :
  format_ok fmt ->
  shape query = [N; Q; H] ->
  shape document = [N; D; H] ->
  shape ql = [N] ->
  shape dl = [N] ->
  (INR D <= fint)%R ->
  (INR Q <= fint)%R ->
  exists l,
    coattention_locals query (Some ql) document (Some dl) sentinel = Some l /\
    forall n d q,
      n < N -> d < D -> q < Q ->
      ((1 <= elem dl [n] < 2 ^ 31)%Z ->
       (forall k, k < D -> (Z.of_nat k < elem dl [n])%Z ->
          is_num (elem (unmasked_affinity l) [n; k; q])) ->
       exists w, elem (attention_p l) [n; d; q] = Num w /\ (0 <= w <= 1)%R) /\
      ((1 <= elem ql [n] < 2 ^ 31)%Z ->
       (forall k, k < Q -> (Z.of_nat k < elem ql [n])%Z ->
          is_num (elem (unmasked_affinity l) [n; d; k])) ->
       exists w, elem (attention_q l) [n; q; d] = Num w /\ (0 <= w <= 1)%R).
Proof.
  intros Hfmt Hq Hd Hql Hdl HDf HQf.
  destruct (coattention_locals_some query document ql dl sentinel N Q D H Hq Hd Hql Hdl)
    as (l & E & F).
  exists l. split; [exact E |].
  intros n d q Hn HdD HqQ. split; intros Hlen Hnum.
  - assert (Hc : cast_int32 (elem dl [n]) = elem dl [n]) by (apply cast_int32_small; lia).
    destruct (attention_p_column query document ql dl N Q D H l F Hfmt n q)
      as (m & s & _ & _ & _ & W); trivial; try lia.
    + rewrite Hc. exact Hnum.
    + destruct (W d HdD) as (e & w & _ & _ & Ew & Ew' & Bw & _).
      exists w. split; [congruence | exact Bw].
  - assert (Hc : cast_int32 (elem ql [n]) = elem ql [n]) by (apply cast_int32_small; lia).
    destruct (attention_q_column query document ql dl N Q D H l F Hfmt n d)
      as (m & s & _ & _ & _ & W); trivial; try lia.
    + rewrite Hc. exact Hnum.
    + destruct (W q HqQ) as (e & w & _ & _ & Ew & Ew' & Bw & _).
      exists w. split; [congruence | exact Bw].
Qed.

(** ** Two runs of [coattention] compared on one batch element *)

Section TwoRuns.

Variables (query document query' document' : tensor scalar).
Variables (ql dl ql' dl' : tensor Z).
Variables (N Q D H : nat) (l l' : locals) (n : nat).
Hypothesis Hquery : shape query = [N; Q; H].
Hypothesis Hdocument : shape document = [N; D; H].
Hypothesis Hquery' : shape query' = [N; Q; H].
Hypothesis Hdocument' : shape document' = [N; D; H].
Hypothesis Hfacts : coattention_facts query document ql dl N Q D H l.
Hypothesis Hfacts' : coattention_facts query' document' ql' dl' N Q D H l'.
Hypothesis Hn : n < N.
Hypothesis Hql : elem ql [n] = elem ql' [n].
Hypothesis Hdl : elem dl [n] = elem dl' [n].

Lemma unmasked_affinity_agree (d q : nat) :
  (forall h, h < H -> elem document [n; d; h] = elem document' [n; d; h]) ->
  (forall h, h < H -> elem query [n; q; h] = elem query' [n; q; h]) ->
  elem (unmasked_affinity l) [n; d; q] = elem (unmasked_affinity l') [n; d; q].
Proof.
  intros Hd Hq.
  rewrite (unmasked_affinity_elem _ _ _ _ _ _ _ _ _ Hfacts).
  rewrite (unmasked_affinity_elem _ _ _ _ _ _ _ _ _ Hfacts').
  f_equal. apply map_ext_in. intros h Hh. apply in_seq in Hh.
  rewrite Hd, Hq by lia. reflexivity.
Qed.

Lemma attention_p_agree (q : nat) :
  (forall d, d < D ->
     elem (affinity l) [n; d; q] = elem (affinity l') [n; d; q]) ->
  forall d, d < D ->
    elem (attention_p l) [n; d; q] = elem (attention_p l') [n; d; q].
Proof.
  intros Ha d Hd.
  rewrite (attention_p_elem _ _ _ _ _ _ _ _ _ Hfacts).
  rewrite (attention_p_elem _ _ _ _ _ _ _ _ _ Hfacts').
  rewrite (Ha d Hd). f_equal. apply map_ext_in.
  intros k Hk. apply in_seq in Hk. rewrite Ha by lia. reflexivity.
Qed.

Lemma attention_q_agree (d : nat) :
  (forall q, q < Q ->
     elem (affinity_t l) [n; q; d] = elem (affinity_t l') [n; q; d]) ->
  forall q, q < Q ->
    elem (attention_q l) [n; q; d] = elem (attention_q l') [n; q; d].
Proof.
  intros Ha q Hq.
  rewrite (attention_q_elem _ _ _ _ _ _ _ _ _ Hfacts).
  rewrite (attention_q_elem _ _ _ _ _ _ _ _ _ Hfacts').
  rewrite (Ha q Hq). f_equal. apply map_ext_in.
  intros k Hk. apply in_seq in Hk. rewrite Ha by lia. reflexivity.
Qed.

(** *** The runs agree on batch element [n] of their arguments *)

Section SameElement.

Hypothesis Hsame_q :
  forall q h, q < Q -> h < H -> elem query [n; q; h] = elem query' [n; q; h].
Hypothesis Hsame_d :
  forall d h, d < D -> h < H -> elem document [n; d; h] = elem document' [n; d; h].

Lemma same_element_affinity (d q : nat) :
  d < D -> q < Q ->
  elem (affinity l) [n; d; q] = elem (affinity l') [n; d; q] /\
  elem (affinity_t l) [n; q; d] = elem (affinity_t l') [n; q; d].
Proof.
  intros Hd Hq.
  rewrite (affinity_elem _ _ _ _ _ _ _ _ _ Hfacts) by assumption.
  rewrite (affinity_elem _ _ _ _ _ _ _ _ _ Hfacts') by assumption.
  rewrite (affinity_t_elem _ _ _ _ _ _ _ _ _ Hfacts) by assumption.
  rewrite (affinity_t_elem _ _ _ _ _ _ _ _ _ Hfacts') by assumption.
  rewrite <- Hql, <- Hdl.
  rewrite (unmasked_affinity_agree d q) by (intros; auto).
  split; reflexivity.
Qed.

Lemma same_element_results :
  (forall d q, d < D -> q < Q ->
     elem (attention_p l) [n; d; q] = elem (attention_p l') [n; d; q] /\
     elem (attention_q l) [n; q; d] = elem (attention_q l') [n; q; d]) /\
  (forall q h, q < Q -> h < H ->
     elem (summary_q l) [n; q; h] = elem (summary_q l') [n; q; h]) /\
  (forall d h, d < D -> h < H ->
     elem (summary_d l) [n; d; h] = elem (summary_d l') [n; d; h] /\
     elem (coattention_d l) [n; d; h] = elem (coattention_d l') [n; d; h]).
Proof.
  assert (Hp : forall d q, d < D -> q < Q ->
            elem (attention_p l) [n; d; q] = elem (attention_p l') [n; d; q]).
  { intros d q Hd Hq. apply attention_p_agree; [| exact Hd].
    intros k Hk. apply same_element_affinity; assumption. }
  assert (Hq : forall d q, d < D -> q < Q ->
            elem (attention_q l) [n; q; d] = elem (attention_q l') [n; q; d]).
  { intros d q Hd Hq. apply attention_q_agree; [| exact Hq].
    intros k Hk. apply same_element_affinity; assumption. }
  assert (Hs : forall q h, q < Q -> h < H ->
            elem (summary_q l) [n; q; h] = elem (summary_q l') [n; q; h]).
  { intros q h HqQ Hh.
    rewrite (summary_q_elem _ _ _ _ _ _ _ _ _ Hfacts).
    rewrite (summary_q_elem _ _ _ _ _ _ _ _ _ Hfacts').
    f_equal. apply map_ext_in. intros d Hd. apply in_seq in Hd.
    rewrite Hsame_d, Hp by lia. reflexivity. }
  split; [| split].
  - intros d q Hd HqQ. split; [apply Hp | apply Hq]; assumption.
  - exact Hs.
  - intros d h Hd Hh. split.
    + rewrite (summary_d_elem _ _ _ _ _ _ _ _ _ Hfacts).
      rewrite (summary_d_elem _ _ _ _ _ _ _ _ _ Hfacts').
      f_equal. apply map_ext_in. intros q HqQ. apply in_seq in HqQ.
      rewrite Hsame_q, Hq by lia. reflexivity.
    + rewrite (coattention_d_elem _ _ _ _ _ _ _ _ _ Hfacts).
      rewrite (coattention_d_elem _ _ _ _ _ _ _ _ _ Hfacts').
      f_equal. apply map_ext_in. intros q HqQ. apply in_seq in HqQ.
      rewrite Hs, Hq by lia. reflexivity.
Qed.

End SameElement.

End TwoRuns.

(** X4.  Batch elements do not mix: two runs of [coattention] whose
    encodings and lengths agree on batch element [n] return results that
    agree on batch element [n], whatever the other batch elements hold (NaN
    included). *)
Theorem coattention_batch_elements_independent
  (query document query' document' : tensor scalar) (ql dl ql' dl' : tensor Z)
  (sentinel : bool) (N Q D H : nat) :
  shape query = [N; Q; H] -> shape document = [N; D; H] ->
  shape query' = [N; Q; H] -> shape document' = [N; D; H] ->
  shape ql = [N] -> shape dl = [N] -> shape ql' = [N] -> shape dl' = [N] ->
  exists l l',
    coattention_locals query (Some ql) document (Some dl) sentinel = Some l /\
    coattention_locals query' (Some ql') document' (Some dl') sentinel = Some l' /\
    forall n,
      n < N ->
      elem ql [n] = elem ql' [n] -> elem dl [n] = elem dl' [n] ->
      (forall q h, q < Q -> h < H -> elem query [n; q; h] = elem query' [n; q; h]) ->
      (forall d h, d < D -> h < H ->
         elem document [n; d; h] = elem document' [n; d; h]) ->
      (forall q h, q < Q -> h < H ->
         elem (summary_q l) [n; q; h] = elem (summary_q l') [n; q; h]) /\
      (forall d h, d < D -> h < H ->
         elem (summary_d l) [n; d; h] = elem (summary_d l') [n; d; h] /\
         elem (coattention_d l) [n; d; h] = elem (coattention_d l') [n; d; h]).
Proof.
  intros Hq Hd Hq' Hd' Hql Hdl Hql' Hdl'.
  destruct (coattention_locals_some query document ql dl sentinel N Q D H Hq Hd Hql Hdl)
    as (l & E & F).
  destruct (coattention_locals_some query' document' ql' dl' sentinel N Q D H
              Hq' Hd' Hql' Hdl') as (l' & E' & F').
  exists l, l'. split; [exact E |]. split; [exact E' |].
  intros n Hn Eql Edl Sq Sd.
  destruct (same_element_results query document query' document' ql dl ql' dl'
              N Q D H l l' n F F' Hn Eql Edl Sq Sd) as (_ & Rq & Rd).
  split; assumption.
Qed.

(** X6.  The mask does not stop a NaN: if [document[n, d0, h]] is NaN at any
    position [d0 < D], padded or not, then [summary_q[n, q, h]] is NaN for
    every [q], and with [Q >= 1] so is [coattention_d[n, d, h]] for every
    [d]; likewise a NaN in [query[n, q0, h]] makes [summary_d[n, d, h]] NaN. *)
Theorem nan_in_encoding_reaches_results (query document : tensor scalar)
  (ql dl : tensor Z) (sentinel : bool) (N Q D H : nat) :
  shape query = [N; Q; H] ->
  shape document = [N; D; H] ->
  shape ql = [N] ->
  shape dl = [N] ->
  exists l,
    coattention_locals query (Some ql) document (Some dl) sentinel = Some l /\
    (forall n d0 h, d0 < D -> elem document [n; d0; h] = NaN ->
       (forall q, elem (summary_q l) [n; q; h] = NaN) /\
       (0 < Q -> forall d, elem (coattention_d l) [n; d; h] = NaN)) /\
    (forall n q0 h, q0 < Q -> elem query [n; q0; h] = NaN ->
       forall d, elem (summary_d l) [n; d; h] = NaN).
Proof.
  intros Hq Hd Hql Hdl.
  destruct (coattention_locals_some query document ql dl sentinel N Q D H Hq Hd Hql Hdl)
    as (l & E & F).
  exists l. split; [exact E |]. split.
  - intros n d0 h Hd0 Hnan.
    assert (Hs : forall q, elem (summary_q l) [n; q; h] = NaN).
    { intros q. rewrite (summary_q_elem _ _ _ _ _ _ _ _ _ F).
      apply fsum_NaN. apply in_map_iff. exists d0. split.
      - rewrite Hnan. apply fmul_NaN_l.
      - apply in_seq. lia. }
    split; [exact Hs |].
    intros HQ d. rewrite (coattention_d_elem _ _ _ _ _ _ _ _ _ F).
    apply fsum_NaN. apply in_map_iff. exists 0. split.
    + rewrite Hs. apply fmul_NaN_l.
    + apply in_seq. lia.
  - intros n q0 h Hq0 Hnan d. rewrite (summary_d_elem _ _ _ _ _ _ _ _ _ F).
    apply fsum_NaN. apply in_map_iff. exists q0. split.
    + rewrite Hnan. apply fmul_NaN_l.
    + apply in_seq. lia.
Qed.


(** ** [coattention] without length vectors *)

Lemma coattention_locals_none_some (query document : tensor scalar)
  (sentinel : bool) (N Q D H : nat) :
  shape query = [N; Q; H] ->
  shape document = [N; D; H] ->
  exists l,
    coattention_locals query None document None sentinel = Some l /\
    affinity l = unmasked_affinity l /\
    forall ql dl : tensor Z,
      (forall n, n < N -> (Z.of_nat Q <= elem ql [n] < 2 ^ 31)%Z) ->
      (forall n, n < N -> (Z.of_nat D <= elem dl [n] < 2 ^ 31)%Z) ->
      coattention_facts query document ql dl N Q D H l.
Proof.
  intros Hq Hd.
  unfold coattention_locals, default_affinity_mask_value.
  destruct (einsum_ndh_nqh_ndq document query N D Q H Hd Hq) as (ua & E1 & S1 & F1).
  rewrite E1. cbn [bind maybe_mask_affinity].
  destruct (softmax_axis1 ua N D Q S1) as (ap & E3 & S3 & F3).
  rewrite E3. cbn [bind].
  destruct (transpose_021 ua N D Q S1) as (tr & E4 & S4 & F4).
  rewrite E4. cbn [bind].
  destruct (softmax_axis1 tr N Q D S4) as (aq & E6 & S6 & F6).
  rewrite E6. cbn [bind].
  destruct (einsum_ndh_ndq_nqh document ap N D Q H Hd S3) as (sq & E7 & S7 & F7).
  rewrite E7. cbn [bind].
  destruct (einsum_nqh_nqd_ndh query aq N D Q H Hq S6) as (sd & E8 & S8 & F8).
  rewrite E8. cbn [bind].
  destruct (einsum_nqh_nqd_ndh sq aq N D Q H S7 S6) as (cd & E9 & S9 & F9).
  rewrite E9. cbn [bind].
  eexists. split; [reflexivity |]. split; [reflexivity |].
  intros ql dl Hql Hdl.
  constructor; cbn [unmasked_affinity affinity attention_p affinity_t attention_q
                    summary_q summary_d coattention_d]; trivial.
  - intros n d q Hn Hd' Hq'. specialize (Hdl n Hn).
    rewrite cast_int32_small by lia.
    destruct (Z.ltb_spec (Z.of_nat d) (elem dl [n])); [reflexivity | lia].
  - intros n q d Hn Hq' Hd'. specialize (Hql n Hn). rewrite F4.
    rewrite cast_int32_small by lia.
    destruct (Z.ltb_spec (Z.of_nat q) (elem ql [n])); [reflexivity | lia].
Qed.

(** X9.  Without length vectors ([None] and [None]) [coattention] masks
    nothing (the affinity it normalizes is the unmasked one), and it returns,
    entry by entry, what it returns with length vectors whose lengths all
    reach the sizes [Q] and [D] of the axes and fit int32. *)
Theorem coattention_without_lengths (query document : tensor scalar) (ql dl : tensor Z)
  (sentinel : bool) (N Q D H : nat) :
  shape query = [N; Q; H] ->
  shape document = [N; D; H] ->
  shape ql = [N] ->
  shape dl = [N] ->
  (forall n, n < N -> (Z.of_nat Q <= elem ql [n] < 2 ^ 31)%Z) ->
  (forall n, n < N -> (Z.of_nat D <= elem dl [n] < 2 ^ 31)%Z) ->
  exists l0 l,
    coattention_locals query None document None sentinel = Some l0 /\
    coattention_locals query (Some ql) document (Some dl) sentinel = Some l /\
    affinity l0 = unmasked_affinity l0 /\
    forall n h, n < N -> h < H ->
      (forall q, q < Q ->
         elem (summary_q l0) [n; q; h] = elem (summary_q l) [n; q; h]) /\
      (forall d, d < D ->
         elem (summary_d l0) [n; d; h] = elem (summary_d l) [n; d; h] /\
         elem (coattention_d l0) [n; d; h] = elem (coattention_d l) [n; d; h]).
Proof.
  intros Hq Hd Hql Hdl Lq Ld.
  destruct (coattention_locals_none_some query document sentinel N Q D H Hq Hd)
    as (l0 & E0 & A0 & F0).
  destruct (coattention_locals_some query document ql dl sentinel N Q D H Hq Hd Hql Hdl)
    as (l & E & F).
  exists l0, l. split; [exact E0 |]. split; [exact E |]. split; [exact A0 |].
  intros n h Hn Hh.
  destruct (same_element_results query document query document ql dl ql dl
              N Q D H l0 l n (F0 ql dl Lq Ld) F Hn eq_refl eq_refl
              (fun _ _ _ _ => eq_refl) (fun _ _ _ _ => eq_refl)) as (_ & Rq & Rd).
  split.
  - intros q HqQ. apply Rq; assumption.
  - intros d HdD. apply Rd; assumption.
Qed.

(** X10.  The counterpart of C7 on the query axis: when
    [query_length[n] = 0], every [attention_q[n, q, d]] is NaN, and so are [summary_d[n, d, :]] and
    [coattention_d[n, d, :]] (with [Q >= 1]). *)
Theorem zero_query_length_gives_nan (query document : tensor scalar)
  (ql dl : tensor Z) (sentinel : bool) (N Q D H n : nat) :
  shape query = [N; Q; H] ->
  shape document = [N; D; H] ->
  shape ql = [N] ->
  shape dl = [N] ->
  n < N ->
  elem ql [n] = 0%Z ->
  exists l,
    coattention query (Some ql) document (Some dl) sentinel =
      Some (summary_q l, summary_d l, coattention_d l) /\
    (forall q d, q < Q -> d < D -> elem (attention_q l) [n; q; d] = NaN) /\
    (0 < Q -> forall d h, d < D ->
       elem (summary_d l) [n; d; h] = NaN /\
       elem (coattention_d l) [n; d; h] = NaN).
Proof.
  intros Hq Hd Hql Hdl Hn Hzero.
  destruct (coattention_locals_some query document ql dl sentinel N Q D H Hq Hd Hql Hdl)
    as (l & E & F).
  exists l. split; [apply coattention_of_locals, E |].
  assert (Ha : forall q d, q < Q -> d < D -> elem (attention_q l) [n; q; d] = NaN).
  { intros q d HqQ HdD.
    apply (all_masked_attention_q query document ql dl N Q D H l F); trivial.
    rewrite Hzero. discriminate. }
  split; [exact Ha |].
  intros HQ d h HdD. split.
  - rewrite (summary_d_elem _ _ _ _ _ _ _ _ _ F).
    apply fsum_NaN. apply in_map_iff. exists 0. split.
    + rewrite (Ha 0 d HQ HdD). apply fmul_NaN_r.
    + apply in_seq. lia.
  - rewrite (coattention_d_elem _ _ _ _ _ _ _ _ _ F).
    apply fsum_NaN. apply in_map_iff. exists 0. split.
    + rewrite (Ha 0 d HQ HdD). apply fmul_NaN_r.
    + apply in_seq. lia.
Qed.

(** X12.  [encode] never returns: its first statement is a call of
    [query_document_encoder], which raises at its dense layer, whatever the
    cells, the recurrence and the inputs are. *)
Theorem encode_never_returns (variables : string -> list nat -> scalar)
  (RNNCell : Type) (LSTMCell : string -> nat -> RNNCell)
  (bidirectional_dynamic_rnn :
     RNNCell -> RNNCell -> tensor scalar -> option (tensor Z) ->
     option (tensor scalar * tensor scalar))
  (state_size : nat) (query document : tensor scalar)
  (query_length document_length : option (tensor Z)) :
  encode variables LSTMCell bidirectional_dynamic_rnn state_size
    query query_length document document_length = None.
Proof.
  unfold encode. rewrite query_document_encoder_none. reflexivity.
Qed.

(** ** Two runs that agree on the unpadded positions of one batch element *)

Lemma fmul_num_zero (x : scalar) :
  format_ok fmt -> is_num x -> fmul x (Num 0) = Num 0.
Proof.
  intros Hfmt [r ->]. simpl. replace (r * 0)%R with 0%R by ring.
  apply (to_float_0 Hfmt).
Qed.

Section Padding.

Variables (query document query' document' : tensor scalar).
Variables (ql dl : tensor Z).
Variables (N Q D H : nat) (l l' : locals) (n : nat).
Hypothesis Hfmt : format_ok fmt.
Hypothesis Hfacts : coattention_facts query document ql dl N Q D H l.
Hypothesis Hfacts' : coattention_facts query' document' ql dl N Q D H l'.
Hypothesis Hn : n < N.
Hypothesis HDf : (INR D <= fint)%R.
Hypothesis HQf : (INR Q <= fint)%R.
Hypothesis Hlq : (1 <= elem ql [n] < 2 ^ 31)%Z.
Hypothesis Hld : (1 <= elem dl [n] < 2 ^ 31)%Z.
Hypothesis Hvalid_q :
  forall q h, q < Q -> h < H -> (Z.of_nat q < elem ql [n])%Z ->
    elem query [n; q; h] = elem query' [n; q; h].
Hypothesis Hvalid_d :
  forall d h, d < D -> h < H -> (Z.of_nat d < elem dl [n])%Z ->
    elem document [n; d; h] = elem document' [n; d; h].
Hypothesis Hnum_q :
  forall q h, q < Q -> h < H ->
    is_num (elem query [n; q; h]) /\ is_num (elem query' [n; q; h]).
Hypothesis Hnum_d :
  forall d h, d < D -> h < H ->
    is_num (elem document [n; d; h]) /\ is_num (elem document' [n; d; h]).
Hypothesis Hnum_a :
  forall d q, d < D -> q < Q ->
    (Z.of_nat d < elem dl [n])%Z -> (Z.of_nat q < elem ql [n])%Z ->
    is_num (elem (unmasked_affinity l) [n; d; q]).

Lemma cast_ql : cast_int32 (elem ql [n]) = elem ql [n].
Proof. apply cast_int32_small. lia. Qed.

Lemma cast_dl : cast_int32 (elem dl [n]) = elem dl [n].
Proof. apply cast_int32_small. lia. Qed.

Lemma padding_unmasked_affinity (d q : nat) :
  d < D -> q < Q ->
  (Z.of_nat d < elem dl [n])%Z -> (Z.of_nat q < elem ql [n])%Z ->
  elem (unmasked_affinity l) [n; d; q] = elem (unmasked_affinity l') [n; d; q].
Proof.
  intros Hd Hq Vd Vq.
  rewrite (unmasked_affinity_elem _ _ _ _ _ _ _ _ _ Hfacts).
  rewrite (unmasked_affinity_elem _ _ _ _ _ _ _ _ _ Hfacts').
  f_equal. apply map_ext_in. intros h Hh. apply in_seq in Hh.
  rewrite Hvalid_d, Hvalid_q by (trivial; lia). reflexivity.
Qed.

(** The columns of [attention_p] at unpadded query positions agree, and
    hold zeros at the padded document positions. *)
Lemma padding_attention_p (d q : nat) :
  d < D -> q < Q -> (Z.of_nat q < elem ql [n])%Z ->
  elem (attention_p l) [n; d; q] = elem (attention_p l') [n; d; q] /\
  ((elem dl [n] <= Z.of_nat d)%Z ->
   elem (attention_p l) [n; d; q] = Num 0 /\ elem (attention_p l') [n; d; q] = Num 0).
Proof.
  intros Hd Hq Vq.
  assert (Ha : forall k, k < D ->
            elem (affinity l) [n; k; q] = elem (affinity l') [n; k; q]).
  { intros k Hk.
    rewrite (affinity_elem _ _ _ _ _ _ _ _ _ Hfacts) by assumption.
    rewrite (affinity_elem _ _ _ _ _ _ _ _ _ Hfacts') by assumption.
    rewrite cast_dl.
    destruct (Z.ltb_spec (Z.of_nat k) (elem dl [n])); [| reflexivity].
    apply padding_unmasked_affinity; assumption. }
  assert (Hp : elem (attention_p l) [n; d; q] = elem (attention_p l') [n; d; q]).
  { rewrite (attention_p_elem _ _ _ _ _ _ _ _ _ Hfacts).
    rewrite (attention_p_elem _ _ _ _ _ _ _ _ _ Hfacts').
    rewrite (Ha d Hd). f_equal. apply map_ext_in.
    intros k Hk. apply in_seq in Hk. apply Ha. lia. }
  split; [exact Hp |].
  intros Hpad.
  assert (Hz : elem (attention_p l) [n; d; q] = Num 0).
  { destruct (attention_p_column query document ql dl N Q D H l Hfacts Hfmt n q)
      as (m & s & _ & _ & _ & W); trivial; try lia.
    - rewrite cast_dl. lia.
    - rewrite cast_dl. intros k Hk Vk. apply Hnum_a; assumption.
    - destruct (W d Hd) as (e & w & _ & _ & Ew & Ew' & _ & Z0).
      rewrite Ew, Ew', Z0; [reflexivity | rewrite cast_dl; exact Hpad]. }
  split; [exact Hz | rewrite <- Hp; exact Hz].
Qed.

(** The columns of [attention_q] at unpadded document positions agree, and
    hold zeros at the padded query positions. *)
Lemma padding_attention_q (q d : nat) :
  q < Q -> d < D -> (Z.of_nat d < elem dl [n])%Z ->
  elem (attention_q l) [n; q; d] = elem (attention_q l') [n; q; d] /\
  ((elem ql [n] <= Z.of_nat q)%Z ->
   elem (attention_q l) [n; q; d] = Num 0 /\ elem (attention_q l') [n; q; d] = Num 0).
Proof.
  intros Hq Hd Vd.
  assert (Ha : forall k, k < Q ->
            elem (affinity_t l) [n; k; d] = elem (affinity_t l') [n; k; d]).
  { intros k Hk.
    rewrite (affinity_t_elem _ _ _ _ _ _ _ _ _ Hfacts) by assumption.
    rewrite (affinity_t_elem _ _ _ _ _ _ _ _ _ Hfacts') by assumption.
    rewrite cast_ql.
    destruct (Z.ltb_spec (Z.of_nat k) (elem ql [n])); [| reflexivity].
    apply padding_unmasked_affinity; assumption. }
  assert (Hp : elem (attention_q l) [n; q; d] = elem (attention_q l') [n; q; d]).
  { rewrite (attention_q_elem _ _ _ _ _ _ _ _ _ Hfacts).
    rewrite (attention_q_elem _ _ _ _ _ _ _ _ _ Hfacts').
    rewrite (Ha q Hq). f_equal. apply map_ext_in.
    intros k Hk. apply in_seq in Hk. apply Ha. lia. }
  split; [exact Hp |].
  intros Hpad.
  assert (Hz : elem (attention_q l) [n; q; d] = Num 0).
  { destruct (attention_q_column query document ql dl N Q D H l Hfacts Hfmt n d)
      as (m & s & _ & _ & _ & W); trivial; try lia.
    - rewrite cast_ql. lia.
    - rewrite cast_ql. intros k Hk Vk. apply Hnum_a; assumption.
    - destruct (W q Hq) as (e & w & _ & _ & Ew & Ew' & _ & Z0).
      rewrite Ew, Ew', Z0; [reflexivity | rewrite cast_ql; exact Hpad]. }
  split; [exact Hz | rewrite <- Hp; exact Hz].
Qed.

Lemma padding_summary_q (q h : nat) :
  q < Q -> h < H -> (Z.of_nat q < elem ql [n])%Z ->
  elem (summary_q l) [n; q; h] = elem (summary_q l') [n; q; h].
Proof.
  intros Hq Hh Vq.
  rewrite (summary_q_elem _ _ _ _ _ _ _ _ _ Hfacts).
  rewrite (summary_q_elem _ _ _ _ _ _ _ _ _ Hfacts').
  f_equal. apply map_ext_in. intros d Hd. apply in_seq in Hd.
  destruct (padding_attention_p d q) as (Ep & Zp); trivial; try lia.
  destruct (Z.ltb_spec (Z.of_nat d) (elem dl [n])) as [Vd | Pd].
  - rewrite Hvalid_d, Ep by (trivial; lia). reflexivity.
  - destruct (Zp Pd) as (-> & ->).
    destruct (Hnum_d d h) as (Nd & Nd'); trivial; try lia.
    rewrite !fmul_num_zero by assumption. reflexivity.
Qed.

Lemma padding_summary_d (d h : nat) :
  d < D -> h < H -> (Z.of_nat d < elem dl [n])%Z ->
  elem (summary_d l) [n; d; h] = elem (summary_d l') [n; d; h].
Proof.
  intros Hd Hh Vd.
  rewrite (summary_d_elem _ _ _ _ _ _ _ _ _ Hfacts).
  rewrite (summary_d_elem _ _ _ _ _ _ _ _ _ Hfacts').
  f_equal. apply map_ext_in. intros q Hq. apply in_seq in Hq.
  destruct (padding_attention_q q d) as (Ep & Zp); trivial; try lia.
  destruct (Z.ltb_spec (Z.of_nat q) (elem ql [n])) as [Vq | Pq].
  - rewrite Hvalid_q, Ep by (trivial; lia). reflexivity.
  - destruct (Zp Pq) as (-> & ->).
    destruct (Hnum_q q h) as (Nq & Nq'); trivial; try lia.
    rewrite !fmul_num_zero by assumption. reflexivity.
Qed.

Lemma padding_coattention_d (d h : nat) :
  (forall q, q < Q -> (elem ql [n] <= Z.of_nat q)%Z ->
     is_num (elem (summary_q l) [n; q; h]) /\ is_num (elem (summary_q l') [n; q; h])) ->
  d < D -> h < H -> (Z.of_nat d < elem dl [n])%Z ->
  elem (coattention_d l) [n; d; h] = elem (coattention_d l') [n; d; h].
Proof.
  intros Hs Hd Hh Vd.
  rewrite (coattention_d_elem _ _ _ _ _ _ _ _ _ Hfacts).
  rewrite (coattention_d_elem _ _ _ _ _ _ _ _ _ Hfacts').
  f_equal. apply map_ext_in. intros q Hq. apply in_seq in Hq.
  destruct (padding_attention_q q d) as (Ep & Zp); trivial; try lia.
  destruct (Z.ltb_spec (Z.of_nat q) (elem ql [n])) as [Vq | Pq].
  - rewrite padding_summary_q, Ep by (trivial; lia). reflexivity.
  - destruct (Zp Pq) as (-> & ->).
    destruct (Hs q) as (Ns & Ns'); trivial; try lia.
    rewrite !fmul_num_zero by assumption. reflexivity.
Qed.

End Padding.

(** A run with one batch element, two query and two document positions of
    which the second is padding, a query of ones and a document that holds 1
    at its unpadded position and any number at the padded one: the summary
    of the padded query position is 1. *)
Lemma padded_summary_q_of_document (document : tensor scalar) :
  format_ok fmt ->
  shape document = [1; 2; 1] ->
  elem document [0; 0; 0] = Num 1 ->
  is_num (elem document [0; 1; 0]) ->
  exists l,
    coattention_locals (ones [1; 2; 1]) (Some (lengths 1 1))
                       document (Some (lengths 1 1)) false = Some l /\
    elem (summary_q l) [0; 1; 0] = Num 1.
Proof.
  intros Hfmt Hs H0 H1.
  destruct (coattention_locals_some (ones [1; 2; 1]) document
              (lengths 1 1) (lengths 1 1) false 1 2 2 1
              eq_refl Hs eq_refl eq_refl) as (l & E & F).
  exists l. split; [exact E |].
  assert (Hua : forall q, elem (unmasked_affinity l) [0; 0; q] = Num 1).
  { intros q. rewrite (unmasked_affinity_elem _ _ _ _ _ _ _ _ _ F).
    cbn [seq map ones elem]. rewrite H0, fsum_cons. change (fsum []) with (Num 0).
    rewrite (fmul_1_1 Hfmt). apply (fadd_1_0 Hfmt). }
  assert (Hp : elem (attention_p l) [0; 0; 1] = Num 1 /\
               elem (attention_p l) [0; 1; 1] = Num 0).
  { rewrite !(attention_p_elem _ _ _ _ _ _ _ _ _ F).
    cbn [seq map]. rewrite !(affinity_elem _ _ _ _ _ _ _ _ _ F) by lia.
    rewrite !Hua. exact (softmax_column_one_masked Hfmt). }
  rewrite (summary_q_elem _ _ _ _ _ _ _ _ _ F). cbn [seq map].
  destruct Hp as (-> & ->). rewrite H0.
  rewrite !fsum_cons. change (fsum []) with (Num 0).
  rewrite (fmul_1_1 Hfmt), (fmul_num_zero _ Hfmt H1), (fadd_0_0 Hfmt).
  apply (fadd_1_0 Hfmt).
Qed.

(** X5.  When masking is enough: take a batch element [n] with lengths of at
    least 1 that fit int32, axes no longer than the format counts exactly,
    and two runs of [coattention] whose encodings are numbers at [n] and
    agree on the unpadded positions ([q < query_length[n]],
    [d < document_length[n]]), with unpadded affinities that are numbers (no
    overflow in the dot products).  Then [summary_q] and [summary_d] agree on
    the unpadded positions, and so does [coattention_d] at every feature [h]
    for which [summary_q[n, q, h]] is a number at the padded query positions
    in both runs. *)
Theorem padding_content_is_ignored
  (query document query' document' : tensor scalar) (ql dl : tensor Z)
  (sentinel : bool) (N Q D H : nat) :
  format_ok fmt ->
  shape query = [N; Q; H] -> shape document = [N; D; H] ->
  shape query' = [N; Q; H] -> shape document' = [N; D; H] ->
  shape ql = [N] -> shape dl = [N] ->
  (INR D <= fint)%R -> (INR Q <= fint)%R ->
  exists l l',
    coattention_locals query (Some ql) document (Some dl) sentinel = Some l /\
    coattention_locals query' (Some ql) document' (Some dl) sentinel = Some l' /\
    forall n,
      n < N ->
      (1 <= elem ql [n] < 2 ^ 31)%Z -> (1 <= elem dl [n] < 2 ^ 31)%Z ->
      (forall q h, q < Q -> h < H -> (Z.of_nat q < elem ql [n])%Z ->
         elem query [n; q; h] = elem query' [n; q; h]) ->
      (forall d h, d < D -> h < H -> (Z.of_nat d < elem dl [n])%Z ->
         elem document [n; d; h] = elem document' [n; d; h]) ->
      (forall q h, q < Q -> h < H ->
         is_num (elem query [n; q; h]) /\ is_num (elem query' [n; q; h])) ->
      (forall d h, d < D -> h < H ->
         is_num (elem document [n; d; h]) /\ is_num (elem document' [n; d; h])) ->
      (forall d q, d < D -> q < Q ->
         (Z.of_nat d < elem dl [n])%Z -> (Z.of_nat q < elem ql [n])%Z ->
         is_num (elem (unmasked_affinity l) [n; d; q])) ->
      (forall q h, q < Q -> h < H -> (Z.of_nat q < elem ql [n])%Z ->
         elem (summary_q l) [n; q; h] = elem (summary_q l') [n; q; h]) /\
      (forall d h, d < D -> h < H -> (Z.of_nat d < elem dl [n])%Z ->
         elem (summary_d l) [n; d; h] = elem (summary_d l') [n; d; h] /\
         ((forall q, q < Q -> (elem ql [n] <= Z.of_nat q)%Z ->
             is_num (elem (summary_q l) [n; q; h]) /\
             is_num (elem (summary_q l') [n; q; h])) ->
          elem (coattention_d l) [n; d; h] = elem (coattention_d l') [n; d; h])).
Proof.
  intros Hfmt Hq Hd Hq' Hd' Hql Hdl HDf HQf.
  destruct (coattention_locals_some query document ql dl sentinel N Q D H Hq Hd Hql Hdl)
    as (l & E & F).
  destruct (coattention_locals_some query' document' ql dl sentinel N Q D H
              Hq' Hd' Hql Hdl) as (l' & E' & F').
  exists l, l'. split; [exact E |]. split; [exact E' |].
  intros n Hn Hlq Hld Vq Vd Nq Nd Na.
  split.
  - intros q h HqQ Hh Hv.
    apply (padding_summary_q query document query' document' ql dl
             N Q D H l l' n); trivial.
  - intros d h HdD Hh Hv. split.
    + apply (padding_summary_d query document query' document' ql dl
               N Q D H l l' n); trivial.
    + intros Ns.
      apply (padding_coattention_d query document query' document' ql dl
               N Q D H l l' n); trivial.
Qed.

End Format.

Arguments mkTensor {A} _ _.
Arguments shape {A} _.
Arguments elem {A} _ _.

(** * Sample runs, in the format that does not round *)

#[global] Existing Instance exact_format.

Lemma exact_format_ok : format_ok exact_format.
Proof.
  constructor; simpl.
  - intros x y Hxy. exact Hxy.
  - intros k _. reflexivity.
  - apply (IZR_le 1). lia.
  - apply IZR_le. lia.
Qed.

Lemma small_nat_exact (k : nat) : k <= 1000 -> (INR k <= fint)%R.
Proof.
  intros Hk. simpl. rewrite INR_IZR_INZ. apply IZR_le. lia.
Qed.





Lemma coattention_summaries_witness :
  exists l,
    coattention (ones [1; 2; 10]) (Some (lengths 1 2))
                (ones [1; 3; 10]) (Some (lengths 1 2)) false =
      Some (summary_q l, summary_d l, coattention_d l) /\
    elem (summary_q l) [0; 1; 0] =
      fsum (map (fun d => fmul (Num 1) (elem (attention_p l) [0; d; 1])) (seq 0 3)).
Proof.
  destruct (coattention_summaries (ones [1; 2; 10]) (ones [1; 3; 10])
              (lengths 1 2) (lengths 1 2) false 1 2 3 10
              eq_refl eq_refl eq_refl eq_refl) as (l & _ & E & _ & Sq & _).
  exists l. split; [exact E |]. apply Sq.
Defined.


Lemma maybe_mask_affinity_masks_axis_1_witness :
  exists M,
    maybe_mask_affinity (ones [1; 3; 2]) (Some (lengths 1 2)) NInf = Some M /\
    shape M = [1; 3; 2] /\
    elem M [0; 1; 0] = Num 1 /\
    elem M [0; 2; 0] = NInf.
Proof.
  destruct (maybe_mask_affinity_masks_axis_1 (ones [1; 3; 2]) (lengths 1 2) NInf 1 3 2
              eq_refl eq_refl) as ((M & E & S & F) & _ & Einf & _).
  exists M. split; [exact E |]. split; [exact S |].
  split.
  - apply (F 0 1 0); simpl; lia.
  - rewrite <- Einf. apply (F 0 2 0); simpl; lia.
Defined.

(** C3, as first stated, fails on a length outside int32: the int64 length
    2^32 + 2 is cast to 2, so row 2, which lies below the length, is masked. *)
Lemma maybe_mask_affinity_counterexample :
  exists M,
    maybe_mask_affinity (ones [1; 3; 2]) (Some (lengths 1 (2 ^ 32 + 2))) NInf = Some M /\
    (Z.of_nat 2 < elem (lengths 1 (2 ^ 32 + 2)) [0%nat])%Z /\
    elem M [0; 2; 0] = NInf /\
    elem M [0; 2; 0] <> elem (ones [1; 3; 2]) [0; 2; 0].
Proof.
  destruct (maybe_mask_affinity_some (ones [1; 3; 2]) (lengths 1 (2 ^ 32 + 2)) NInf 1 3 2
              eq_refl eq_refl) as (M & E & _ & F).
  exists M. split; [exact E |]. split; [reflexivity |].
  assert (HM : elem M [0; 2; 0] = NInf).
  { rewrite (F 0 2 0) by lia. apply fmul_NInf_one. }
  split; [exact HM |]. rewrite HM. discriminate.
Qed.

Lemma sentinel_flag_is_inert_witness :
  coattention (ones [1; 2; 10]) (Some (lengths 1 2))
              (ones [1; 3; 10]) (Some (lengths 1 2)) true =
  coattention (ones [1; 2; 10]) (Some (lengths 1 2))
              (ones [1; 3; 10]) (Some (lengths 1 2)) false /\
  exists sq sd cd,
    coattention (ones [1; 2; 10]) (Some (lengths 1 2))
                (ones [1; 3; 10]) (Some (lengths 1 2)) true = Some (sq, sd, cd) /\
    shape sq = [1; 2; 10] /\ shape sd = [1; 3; 10] /\ shape cd = [1; 3; 10].
Proof.
  destruct (sentinel_flag_is_inert (ones [1; 2; 10]) (ones [1; 3; 10])
              (Some (lengths 1 2)) (Some (lengths 1 2))) as (E & _ & _ & _ & S).
  split; [exact E |].
  apply (S (lengths 1 2) (lengths 1 2) 1 2 3 10); reflexivity.
Defined.

Lemma zero_document_length_gives_nan_witness :
  exists l,
    coattention (ones [1; 2; 10]) (Some (lengths 1 2))
                (ones [1; 3; 10]) (Some (lengths 1 0)) false =
      Some (summary_q l, summary_d l, coattention_d l) /\
    elem (attention_p l) [0; 0; 0] = NaN /\
    elem (summary_q l) [0; 0; 0] = NaN /\
    elem (coattention_d l) [0; 0; 0] = NaN.
Proof.
  destruct (zero_document_length_gives_nan (ones [1; 2; 10]) (ones [1; 3; 10])
              (lengths 1 2) (lengths 1 0) false 1 2 3 10 0
              eq_refl eq_refl eq_refl eq_refl (Nat.lt_0_succ 0) eq_refl)
    as (l & _ & E & P & S & C).
  exists l. split; [exact E |].
  split; [apply (P 0 0); lia |].
  split; [apply S; lia | apply C; lia].
Defined.





Arguments query_document_encoder {fmt} variables {RNNCell} bidirectional_dynamic_rnn
  scope cell_fw cell_bw query query_length document document_length.
Arguments encode {fmt} variables {RNNCell} LSTMCell bidirectional_dynamic_rnn
  state_size query query_length document document_length.

(** One batch element, two positions: the logits have shape [2]. *)
Lemma decode_loses_batch_axis_of_one_witness :
  exists start_logit end_logit,
    decode zero_variables (ones [1; 2; 10]) = Some (start_logit, end_logit) /\
    shape start_logit = [2] /\ shape end_logit = [2].
Proof.
  destruct (decode_loses_batch_axis_of_one zero_variables (ones [1; 2; 10]) 1 2 10 eq_refl)
    as (s & e & E & _ & _ & _ & B).
  exists s, e. split; [exact E |]. apply B; [reflexivity | lia].
Defined.


(** A query encoding of width 2: the tensor-valued units are refused, the
    integer 2 is accepted. *)
Lemma projection_units_is_a_tensor_witness :
  query_document_encoder zero_variables sample_rnn "encoder" tt tt
    (ones [1; 2; 1]) (Some (lengths 1 2)) (ones [1; 2; 1]) (Some (lengths 1 2)) = None /\
  exists units,
    shape_entry (ones [1; 2; 2]) 2 = Some units /\
    layers_dense zero_variables "encoder" (ones [1; 2; 2]) (TensorUnits units) (Some ftanh)
      = None /\
    exists projected,
      layers_dense zero_variables "encoder" (ones [1; 2; 2]) (IntUnits 2) (Some ftanh)
        = Some projected /\
      shape projected = [1; 2; 2].
Proof.
  destruct (projection_units_is_a_tensor zero_variables unit sample_rnn "encoder" tt tt)
    as (Hnone & Hunits).
  split; [apply Hnone |].
  destruct (Hunits (ones [1; 2; 2]) 1 2 2 eq_refl) as (units & E & _ & _ & T & P).
  exists units. split; [exact E |]. split; [exact T | exact P].
Defined.

Lemma maybe_mask_affinity_returns_iff_witness :
  (exists M, maybe_mask_affinity (ones [2; 3; 2]) (Some (lengths 2 1)) NInf = Some M) /\
  maybe_mask_affinity (ones [2; 3; 2]) (Some (lengths 1 1)) NInf = None /\
  maybe_mask_affinity (ones [3; 2]) (Some (lengths 3 1)) NInf = None.
Proof.
  split; [| split].
  - apply (maybe_mask_affinity_returns_iff (ones [2; 3; 2]) (lengths 2 1) NInf).
    exists 2, 3, 2. split; reflexivity.
  - destruct (maybe_mask_affinity (ones [2; 3; 2]) (Some (lengths 1 1)) NInf) as [M |] eqn:E;
      [| reflexivity].
    exfalso.
    destruct (proj1 (maybe_mask_affinity_returns_iff (ones [2; 3; 2]) (lengths 1 1) NInf))
      as (N & L1 & L2 & HA & Hlen); [exists M; exact E |].
    cbn in HA, Hlen. congruence.
  - destruct (maybe_mask_affinity (ones [3; 2]) (Some (lengths 3 1)) NInf) as [M |] eqn:E;
      [| reflexivity].
    exfalso.
    destruct (proj1 (maybe_mask_affinity_returns_iff (ones [3; 2]) (lengths 3 1) NInf))
      as (N & L1 & L2 & HA & Hlen); [exists M; exact E |].
    cbn in HA. discriminate HA.
Defined.

Lemma coattention_returns_iff_witness :
  (exists r, coattention (ones [2; 2; 5]) (Some (lengths 2 1))
                         (ones [2; 3; 5]) (Some (lengths 2 1)) true = Some r) /\
  coattention (ones [2; 2; 5]) (Some (lengths 2 1))
              (ones [2; 3; 4]) (Some (lengths 2 1)) true = None.
Proof.
  split.
  - apply (coattention_returns_iff (ones [2; 2; 5]) (ones [2; 3; 5])
             (lengths 2 1) (lengths 2 1) true).
    exists 2, 2, 3, 5. repeat split; reflexivity.
  - destruct (coattention (ones [2; 2; 5]) (Some (lengths 2 1))
                          (ones [2; 3; 4]) (Some (lengths 2 1)) true) as [r |] eqn:E;
      [| reflexivity].
    exfalso.
    destruct (proj1 (coattention_returns_iff (ones [2; 2; 5]) (ones [2; 3; 4])
                       (lengths 2 1) (lengths 2 1) true))
      as (N & Q & D & H & Sq & Sd & _); [exists r; exact E |].
    cbn in Sq, Sd. congruence.
Defined.

Lemma maybe_mask_affinity_idempotent_witness :
  exists M M',
    maybe_mask_affinity (ones [1; 3; 2]) (Some (lengths 1 2)) NInf = Some M /\
    maybe_mask_affinity M (Some (lengths 1 2)) NInf = Some M' /\
    elem M' [0; 2; 1] = elem M [0; 2; 1].
Proof.
  destruct (maybe_mask_affinity_idempotent (ones [1; 3; 2]) (lengths 1 2) NInf 1 3 2
              eq_refl eq_refl) as (M & M' & E & E' & _ & P).
  exists M, M'. split; [exact E |]. split; [exact E' |]. apply P; lia.
Defined.

Lemma decode_shape_any_rank_witness :
  decode zero_variables (ones [7]) = None /\
  exists start_logit end_logit,
    decode zero_variables (ones [4; 10]) = Some (start_logit, end_logit) /\
    shape start_logit = [4] /\ shape end_logit = [4].
Proof.
  split.
  - apply (decode_shape_any_rank zero_variables (ones [7])). unfold rank. simpl. lia.
  - apply (proj2 (decode_shape_any_rank zero_variables (ones [4; 10])) [4] 10);
      [discriminate | reflexivity].
Defined.

Lemma decode_logit_values_witness :
  exists start_logit end_logit,
    decode zero_variables (ones [1; 2; 3]) = Some (start_logit, end_logit) /\
    elem start_logit [1] =
      fadd (fsum (map (fun k => fmul (Num 1) (Num 0)) (seq 0 3))) (Num 0).
Proof.
  destruct (decode_logit_values zero_variables (ones [1; 2; 3]) 1 2 3 eq_refl (le_n 2))
    as (s & e & E & _ & P).
  exists s, e. split; [exact E |].
  destruct (P eq_refl 1) as (Ps & _). exact Ps.
Defined.


Lemma padding_attention_q_is_zero_witness :
  exists l,
    coattention_locals (ones [1; 3; 10]) (Some (lengths 1 2))
                       (ones [1; 2; 10]) (Some (lengths 1 2)) false = Some l /\
    elem (attention_q l) [0; 2; 0] = Num 0 /\
    elem (attention_q l) [0; 2; 1] = Num 0.
Proof.
  destruct (padding_attention_q_is_zero (ones [1; 3; 10]) (ones [1; 2; 10])
              (lengths 1 2) (lengths 1 2) false 1 3 2 10
              exact_format_ok eq_refl eq_refl eq_refl eq_refl
              (small_nat_exact 3 ltac:(lia))) as (l & E & P).
  exists l. split; [exact E |].
  pose proof (coattention_locals_facts_of_run (ones [1; 3; 10]) (ones [1; 2; 10])
                (lengths 1 2) (lengths 1 2) false 1 3 2 10 l
                eq_refl eq_refl eq_refl eq_refl E) as F.
  split; apply P; try (simpl; lia);
    intros k _ _;
    apply (ones_affinity_num _ _ _ _ _ _ _ _ l exact_format_ok F (small_nat_exact 10 ltac:(lia))).
Defined.

Lemma attention_weights_in_unit_interval_witness :
  exists l,
    coattention_locals (ones [1; 2; 10]) (Some (lengths 1 2))
                       (ones [1; 3; 10]) (Some (lengths 1 2)) false = Some l /\
    (exists w, elem (attention_p l) [0; 1; 1] = Num w /\ (0 <= w <= 1)%R) /\
    (exists w, elem (attention_q l) [0; 1; 1] = Num w /\ (0 <= w <= 1)%R).
Proof.
  destruct (attention_weights_in_unit_interval (ones [1; 2; 10]) (ones [1; 3; 10])
              (lengths 1 2) (lengths 1 2) false 1 2 3 10
              exact_format_ok eq_refl eq_refl eq_refl eq_refl
              (small_nat_exact 3 ltac:(lia)) (small_nat_exact 2 ltac:(lia)))
    as (l & E & P).
  exists l. split; [exact E |].
  pose proof (coattention_locals_facts_of_run (ones [1; 2; 10]) (ones [1; 3; 10])
                (lengths 1 2) (lengths 1 2) false 1 2 3 10 l
                eq_refl eq_refl eq_refl eq_refl E) as F.
  destruct (P 0 1 1) as (Pp & Pq); try lia.
  split; [apply Pp | apply Pq]; try (simpl; lia);
    intros k _ _;
    apply (ones_affinity_num _ _ _ _ _ _ _ _ l exact_format_ok F (small_nat_exact 10 ltac:(lia))).
Defined.

Lemma coattention_batch_elements_independent_witness :
  exists l l',
    coattention_locals (ones [2; 2; 3]) (Some (lengths 2 1))
                       (ones [2; 2; 3]) (Some (lengths 2 1)) false = Some l /\
    coattention_locals (ones_then_twos [2; 2; 3]) (Some (lengths 2 1))
                       (ones_then_twos [2; 2; 3]) (Some (lengths 2 1)) false = Some l' /\
    elem (summary_q l) [0; 1; 2] = elem (summary_q l') [0; 1; 2] /\
    elem (coattention_d l) [0; 1; 2] = elem (coattention_d l') [0; 1; 2].
Proof.
  destruct (coattention_batch_elements_independent
              (ones [2; 2; 3]) (ones [2; 2; 3])
              (ones_then_twos [2; 2; 3]) (ones_then_twos [2; 2; 3])
              (lengths 2 1) (lengths 2 1) (lengths 2 1) (lengths 2 1) false 2 2 2 3
              eq_refl eq_refl eq_refl eq_refl eq_refl eq_refl eq_refl eq_refl)
    as (l & l' & E & E' & P).
  exists l, l'. split; [exact E |]. split; [exact E' |].
  destruct (P 0) as (Pq & Pd); try reflexivity; try lia.
  split; [apply Pq; lia | apply Pd; lia].
Defined.

(** A NaN at the padded document position 1 (the length is 1). *)
Lemma nan_in_encoding_reaches_results_witness :
  exists l,
    coattention_locals (ones [1; 2; 3]) (Some (lengths 1 1))
                       (one_then_nan [1; 2; 3]) (Some (lengths 1 1)) false = Some l /\
    elem (summary_q l) [0; 0; 2] = NaN /\
    elem (coattention_d l) [0; 0; 2] = NaN.
Proof.
  destruct (nan_in_encoding_reaches_results (ones [1; 2; 3]) (one_then_nan [1; 2; 3])
              (lengths 1 1) (lengths 1 1) false 1 2 2 3
              eq_refl eq_refl eq_refl eq_refl) as (l & E & P & _).
  exists l. split; [exact E |].
  destruct (P 0 1 2) as (Ps & Pc); [lia | reflexivity |].
  split; [apply Ps | apply Pc; lia].
Defined.


Lemma coattention_without_lengths_witness :
  exists l0 l,
    coattention_locals (ones [1; 2; 3]) None (ones [1; 2; 3]) None false = Some l0 /\
    coattention_locals (ones [1; 2; 3]) (Some (lengths 1 2))
                       (ones [1; 2; 3]) (Some (lengths 1 2)) false = Some l /\
    elem (summary_q l0) [0; 1; 2] = elem (summary_q l) [0; 1; 2] /\
    elem (coattention_d l0) [0; 1; 2] = elem (coattention_d l) [0; 1; 2].
Proof.
  destruct (coattention_without_lengths (ones [1; 2; 3]) (ones [1; 2; 3])
              (lengths 1 2) (lengths 1 2) false 1 2 2 3
              eq_refl eq_refl eq_refl eq_refl)
    as (l0 & l & E0 & E & _ & P); try (intros; simpl; lia).
  exists l0, l. split; [exact E0 |]. split; [exact E |].
  destruct (P 0 2) as (Pq & Pd); try lia.
  split; [apply Pq | apply Pd]; lia.
Defined.

Lemma zero_query_length_gives_nan_witness :
  exists l,
    coattention (ones [1; 2; 10]) (Some (lengths 1 0))
                (ones [1; 3; 10]) (Some (lengths 1 2)) false =
      Some (summary_q l, summary_d l, coattention_d l) /\
    elem (attention_q l) [0; 1; 2] = NaN /\
    elem (summary_d l) [0; 2; 4] = NaN /\
    elem (coattention_d l) [0; 2; 4] = NaN.
Proof.
  destruct (zero_query_length_gives_nan (ones [1; 2; 10]) (ones [1; 3; 10])
              (lengths 1 0) (lengths 1 2) false 1 2 3 10 0
              eq_refl eq_refl eq_refl eq_refl (Nat.lt_0_succ 0) eq_refl)
    as (l & E & A & S).
  exists l. split; [exact E |].
  split; [apply A; lia |].
  destruct (S (Nat.lt_0_succ 1) 2 4) as (Sd & Cd); [lia |].
  split; [exact Sd | exact Cd].
Defined.

(** The second query and document positions are padding (lengths 1 and 1);
    the padded document position holds 5 in the second run. *)
Lemma padding_content_is_ignored_witness :
  exists l l',
    coattention_locals (ones [1; 2; 1]) (Some (lengths 1 1))
                       (ones [1; 2; 1]) (Some (lengths 1 1)) false = Some l /\
    coattention_locals (ones [1; 2; 1]) (Some (lengths 1 1))
                       (one_then_fives [1; 2; 1]) (Some (lengths 1 1)) false = Some l' /\
    elem (summary_q l) [0; 0; 0] = elem (summary_q l') [0; 0; 0] /\
    elem (summary_d l) [0; 0; 0] = elem (summary_d l') [0; 0; 0] /\
    elem (coattention_d l) [0; 0; 0] = elem (coattention_d l') [0; 0; 0].
Proof.
  destruct (padding_content_is_ignored
              (ones [1; 2; 1]) (ones [1; 2; 1])
              (ones [1; 2; 1]) (one_then_fives [1; 2; 1])
              (lengths 1 1) (lengths 1 1) false 1 2 2 1
              exact_format_ok eq_refl eq_refl eq_refl eq_refl eq_refl eq_refl
              (small_nat_exact 2 ltac:(lia)) (small_nat_exact 2 ltac:(lia)))
    as (l & l' & E & E' & P).
  exists l, l'. split; [exact E |]. split; [exact E' |].
  pose proof (coattention_locals_facts_of_run (ones [1; 2; 1]) (ones [1; 2; 1])
                (lengths 1 1) (lengths 1 1) false 1 2 2 1 l
                eq_refl eq_refl eq_refl eq_refl E) as F.
  destruct (P 0) as (Pq & Pd).
  - lia.
  - simpl. lia.
  - simpl. lia.
  - intros q h _ _ _. reflexivity.
  - intros d h _ _ Hv. cbn [lengths elem] in Hv. destruct d; [reflexivity | lia].
  - intros q h _ _. split; eexists; reflexivity.
  - intros d h _ _. split; [eexists; reflexivity |].
    unfold one_then_fives. cbn [elem]. destruct d; eexists; reflexivity.
  - intros d q _ _ _ _.
    apply (ones_affinity_num _ _ _ _ _ _ _ _ l exact_format_ok F
             (small_nat_exact 1 ltac:(lia))).
  - split; [apply Pq; simpl; lia |].
    destruct (Pd 0 0) as (Sd & Cd); try (simpl; lia).
    split; [exact Sd |]. apply Cd. intros q Hq Hpad.
    cbn [lengths elem] in Hpad.
    assert (q = 1) by lia. subst q.
    destruct (padded_summary_q_of_document (ones [1; 2; 1]) exact_format_ok
                eq_refl eq_refl (ex_intro _ 1%R eq_refl)) as (l0 & E0 & S0).
    destruct (padded_summary_q_of_document (one_then_fives [1; 2; 1]) exact_format_ok
                eq_refl eq_refl (ex_intro _ 5%R eq_refl)) as (l0' & E0' & S0').
    assert (l0 = l) by congruence. assert (l0' = l') by congruence. subst l0 l0'.
    rewrite S0, S0'. split; eexists; reflexivity.
Defined.
